(** * use-keys-bindings: the binding matcher of [useKeys]

    A shallow embedding of [src/useKeysBindings.ts]: the case-insensitive
    set [LowercaseSet], the two match predicates [checkModifiers] and
    [checkKeys], the registration check of [useKeys] and the three event
    handlers [handleKeyDown], [handleKeyUp] and [handleBlur].

    The held keys ([pressedKeys.current]) are the only state.  The two
    observable effects of a handler, a call of [e.preventDefault()] and a
    call of a command's callback, are recorded in order in a trace.

    The types [Key] and [KeyModifier] come from [./types]; both are sets of
    key names, and a key name is a string here.  The React hooks
    ([useMemo], [useRef], [useEffect]) only keep the values below alive and
    attach the handlers to [window]; they are not modelled. *)

From Stdlib Require Import Ascii String List Bool Arith Lia Sorted.
From stdpp Require Import base decidable option list gmap sets strings.
Import ListNotations.
Local Open Scope string_scope.
Local Open Scope list_scope.

(** ** Strings: [String.prototype.toLowerCase]

    Key identifiers are ASCII names ("a", "S", "Control", "ArrowUp").  The
    model lowers the 26 ASCII capitals and leaves every other character as
    it is. *)

Definition lower_ascii (a : ascii) : ascii :=
  let n := nat_of_ascii a in
  if Nat.leb 65 n && Nat.leb n 90 then ascii_of_nat (n + 32) else a.

Fixpoint toLowerCase (s : string) : string :=
  match s with
  | EmptyString => EmptyString
  | String a rest => String (lower_ascii a) (toLowerCase rest)
  end.

(** ** [class LowercaseSet extends Set<string>]

    [add], [delete] and [has] lower their argument and call the method of
    [Set].  [clear] is inherited.  The constructor of [Set] adds the
    elements of its argument one by one through the (overridden) [add]. *)

Module LowercaseSet.

Definition t : Type := gset string.

Definition empty : t := ∅.

Definition add (value : string) (s : t) : t := {[ toLowerCase value ]} ∪ s.

Definition delete (value : string) (s : t) : t := s ∖ {[ toLowerCase value ]}.

Definition has (s : t) (value : string) : bool :=
  bool_decide (toLowerCase value ∈ s).

Definition clear (s : t) : t := ∅.

Definition new (values : list string) : t :=
  fold_left (fun s value => add value s) values empty.

End LowercaseSet.

(** ** Events, commands and effects *)

(** The part of a DOM [KeyboardEvent] that matters here: the key identifier
    and the four raw modifier flags of the event. *)
Record KeyboardEvent : Type := {
  key : string;
  ctrlKey : bool;
  shiftKey : bool;
  altKey : bool;
  metaKey : bool
}.

(** A callback is a function of the host program; the model names it by a
    handle and records each call.  Callbacks are taken to return normally. *)
Definition Callback : Type := nat.

(** [interface useKeysCommand] (lines 4-10).  An optional property is an
    [option] ([None] is [undefined]).  [modifiers] is the object as
    [Object.entries] lists it, name and required boolean.  The interface
    declares a minimum shape: an object passed to [useKeys] may carry
    further properties, which no line of the hook reads; [otherProps] holds
    the boolean ones by name. *)
Record useKeysCommand : Type := {
  keys : list string;
  callback : Callback;
  triggerOnAnyKey : option bool;
  modifiers : option (list (string * bool));
  preventDefault : option bool;
  otherProps : list (string * bool)
}.

(** The two things a handler does to the outside, in the order it does
    them: [e.preventDefault()] and [commandCallbacks[i](e)]. *)
Inductive Effect : Type :=
| PreventDefault (e : KeyboardEvent)
| Invoke (i : nat) (cb : Callback) (e : KeyboardEvent).

(** Truthiness of an optional boolean property. *)
Definition truthy (flag : option bool) : bool :=
  match flag with
  | Some true => true
  | _ => false
  end.

(** ** The two match predicates *)

(** The entries a modifiers object constrains: none when it is absent. *)
Definition entriesOf (modifiers : option (list (string * bool))) : list (string * bool) :=
  default [] modifiers.

(** [checkModifiers] (lines 33-43): no object or no entry, [true];
    otherwise every entry has [required === pressedKeys.has(modifier)]. *)
Definition checkModifiers (pressedKeys : gset string)
    (modifiers : option (list (string * bool))) : bool :=
  match modifiers with
  | None => true
  | Some entries =>
      if Nat.eqb (length entries) 0 then true
      else forallb (fun '(modifier, required) =>
                      Bool.eqb required (LowercaseSet.has pressedKeys modifier))
                   entries
  end.

(** [checkKeys] (lines 45-54), [triggerOnAnyKey] defaulting to [false]:
    [some] or [every] over [Array.from(keySet)]. *)
Definition checkKeys (pressedKeys keySet : gset string)
    (triggerOnAnyKey : option bool) : bool :=
  if default false triggerOnAnyKey
  then existsb (fun k => LowercaseSet.has pressedKeys k) (elements keySet)
  else forallb (fun k => LowercaseSet.has pressedKeys k) (elements keySet).

(** ** Registration: [useKeys(...commands)] *)

(** [new Error(message)]. *)
Inductive Error : Type :=
| ErrorMsg (message : string).

Definition keySets (commands : list useKeysCommand) : list (gset string) :=
  map (fun command => LowercaseSet.new (keys command)) commands.

Definition commandCallbacks (commands : list useKeysCommand) : list Callback :=
  map (fun command => callback command) commands.

(** [useKeys] (lines 56-69).  The hook throws before it builds anything;
    otherwise it starts with an empty [pressedKeys] and installs the three
    handlers below.  The result is the thrown error or the initial held-key
    set. *)
Definition useKeys (commands : list useKeysCommand) : Error + gset string :=
  if existsb (fun cmd => Nat.eqb (length (keys cmd)) 0) commands
  then inl (ErrorMsg "Empty keys array is not allowed")
  else inr (LowercaseSet.new []).

(** ** The handlers *)

(** One turn of the [for] loop of [handleKeyDown] (lines 76-86), at index
    [i]; a [continue] ends the turn. *)
Definition keyDownAt (commands : list useKeysCommand) (pressedKeys : gset string)
    (e : KeyboardEvent) (i : nat) : list Effect :=
  match commands !! i, keySets commands !! i, commandCallbacks commands !! i with
  | Some command, Some keySet, Some cb =>
      (if truthy (preventDefault command) && LowercaseSet.has keySet (key e)
       then [PreventDefault e] else [])
      ++
      (if negb (checkModifiers pressedKeys (modifiers command)) then []
       else if negb (checkKeys pressedKeys keySet (triggerOnAnyKey command)) then []
       else [Invoke i cb e])
  | _, _, _ => []
  end.

(** The [for] loop of [handleKeyDown] (line 75), over
    [i = 0 .. commands.length - 1]. *)
Definition evaluate (commands : list useKeysCommand) (pressedKeys : gset string)
    (e : KeyboardEvent) : list Effect :=
  flat_map (keyDownAt commands pressedKeys e) (seq 0 (length commands)).

(** [handleKeyDown] (lines 71-88): return at once when the key is held,
    else add it and run the loop. *)
Definition handleKeyDown (commands : list useKeysCommand) (pressedKeys : gset string)
    (e : KeyboardEvent) : gset string * list Effect :=
  if LowercaseSet.has pressedKeys (key e) then (pressedKeys, [])
  else
    let pressedKeys := LowercaseSet.add (key e) pressedKeys in
    (pressedKeys, evaluate commands pressedKeys e).

(** [handleKeyUp] (lines 90-92) and [handleBlur] (lines 94-96). *)
Definition handleKeyUp (pressedKeys : gset string) (e : KeyboardEvent)
    : gset string * list Effect :=
  (LowercaseSet.delete (key e) pressedKeys, []).

Definition handleBlur (pressedKeys : gset string) : gset string * list Effect :=
  (LowercaseSet.clear pressedKeys, []).

(** ** The event source: what [window] delivers to the three listeners *)

Inductive Notification : Type :=
| KeyDown (e : KeyboardEvent)
| KeyUp (e : KeyboardEvent)
| Blur.

Definition dispatch (commands : list useKeysCommand) (pressedKeys : gset string)
    (n : Notification) : gset string * list Effect :=
  match n with
  | KeyDown e => handleKeyDown commands pressedKeys e
  | KeyUp e => handleKeyUp pressedKeys e
  | Blur => handleBlur pressedKeys
  end.

(** A sequence of notifications, handled one after the other; the traces
    are concatenated. *)
Fixpoint run (commands : list useKeysCommand) (pressedKeys : gset string)
    (ns : list Notification) : gset string * list Effect :=
  match ns with
  | [] => (pressedKeys, [])
  | n :: rest =>
      let '(pressedKeys1, trace1) := dispatch commands pressedKeys n in
      let '(pressedKeys2, trace2) := run commands pressedKeys1 rest in
      (pressedKeys2, trace1 ++ trace2)
  end.

(** ** Reading a trace *)

Definition invokes (i : nat) (trace : list Effect) : bool :=
  existsb (fun eff => match eff with
                      | Invoke j _ _ => Nat.eqb i j
                      | PreventDefault _ => false
                      end) trace.

Definition suppresses (trace : list Effect) : bool :=
  existsb (fun eff => match eff with
                      | PreventDefault _ => true
                      | Invoke _ _ _ => false
                      end) trace.

(** What is left of an effect when the event it carries is forgotten. *)
Definition shape (eff : Effect) : option (nat * Callback) :=
  match eff with
  | PreventDefault _ => None
  | Invoke i cb _ => Some (i, cb)
  end.

(** The indices of the callbacks a trace calls, in the order of the calls. *)
Definition invokedIndices (trace : list Effect) : list nat :=
  flat_map (fun eff => match eff with
                       | Invoke i _ _ => [i]
                       | PreventDefault _ => []
                       end) trace.

(** Command [i] passes both checks of the loop on the held keys. *)
Definition matches (commands : list useKeysCommand) (pressedKeys : gset string)
    (i : nat) : bool :=
  match commands !! i with
  | Some c =>
      checkModifiers pressedKeys (modifiers c)
      && checkKeys pressedKeys (LowercaseSet.new (keys c)) (triggerOnAnyKey c)
  | None => false
  end.

(** ** Histories

    [releases k n]: the notification takes key [k] out of the held keys, a
    key-up of [k] or a blur.  [presses k n]: it is a key-down of [k].
    [recorded k ns held]: whether [k] is down after the notifications [ns],
    read off the history alone, [held] telling whether it was down before. *)

Definition sameKey (k1 k2 : string) : bool :=
  String.eqb (toLowerCase k1) (toLowerCase k2).

Definition releases (k : string) (n : Notification) : bool :=
  match n with
  | KeyDown _ => false
  | KeyUp e => sameKey (key e) k
  | Blur => true
  end.

Definition presses (k : string) (n : Notification) : bool :=
  match n with
  | KeyDown e => sameKey (key e) k
  | KeyUp _ => false
  | Blur => false
  end.

Fixpoint recorded (k : string) (ns : list Notification) (held : bool) : bool :=
  match ns with
  | [] => held
  | n :: rest =>
      recorded k rest (if presses k n then true
                       else if releases k n then false
                       else held)
  end.

(** ** Letter case

    Two commands, or two notifications, that differ in the letter case of
    key identifiers only. *)

Definition caseVariantEntry (a b : string * bool) : Prop :=
  sameKey a.1 b.1 = true ∧ a.2 = b.2.

Definition caseVariantModifiers (m1 m2 : option (list (string * bool))) : Prop :=
  match m1, m2 with
  | None, None => True
  | Some entries1, Some entries2 => Forall2 caseVariantEntry entries1 entries2
  | _, _ => False
  end.

Record caseVariantCommand (c1 c2 : useKeysCommand) : Prop := {
  cv_keys : Forall2 (fun k1 k2 => sameKey k1 k2 = true) (keys c1) (keys c2);
  cv_callback : callback c1 = callback c2;
  cv_triggerOnAnyKey : triggerOnAnyKey c1 = triggerOnAnyKey c2;
  cv_modifiers : caseVariantModifiers (modifiers c1) (modifiers c2);
  cv_preventDefault : preventDefault c1 = preventDefault c2
}.

(** Same kind of notification, same key up to letter case. *)
Definition sameKeyNotification (n1 n2 : Notification) : Prop :=
  match n1, n2 with
  | KeyDown e1, KeyDown e2 => sameKey (key e1) (key e2) = true
  | KeyUp e1, KeyUp e2 => sameKey (key e1) (key e2) = true
  | Blur, Blur => True
  | _, _ => False
  end.

Definition sameFlags (e1 e2 : KeyboardEvent) : Prop :=
  ctrlKey e1 = ctrlKey e2 ∧ shiftKey e1 = shiftKey e2
  ∧ altKey e1 = altKey e2 ∧ metaKey e1 = metaKey e2.

Definition caseVariantNotification (n1 n2 : Notification) : Prop :=
  match n1, n2 with
  | KeyDown e1, KeyDown e2 => sameKey (key e1) (key e2) = true ∧ sameFlags e1 e2
  | KeyUp e1, KeyUp e2 => sameKey (key e1) (key e2) = true ∧ sameFlags e1 e2
  | Blur, Blur => True
  | _, _ => False
  end.

(** ** Repeat on hold

    The README lists a command property [enableKeyRepeatOnHold]; the
    specification calls it [repeatOnHold].  [useKeysCommand] does not
    declare it and the hook does not read it.  A command asks for it when
    it carries the property, under either name, with value [true]. *)
Definition requestsRepeat (c : useKeysCommand) : bool :=
  existsb (fun '(name, value) =>
             (String.eqb name "enableKeyRepeatOnHold" || String.eqb name "repeatOnHold")
             && value)
          (otherProps c).

(** The reading of "repeat on hold" for one command and one key-down of a
    key that is already held, the command matching the held keys: its
    callback is called again exactly when the command asks for repeat. *)
Definition reinvokedAsRequested (commands : list useKeysCommand)
    (pressedKeys : gset string) (e : KeyboardEvent) (i : nat) (c : useKeysCommand)
    : Prop :=
  commands !! i = Some c →
  LowercaseSet.has pressedKeys (key e) = true →
  checkModifiers pressedKeys (modifiers c) = true →
  checkKeys pressedKeys (LowercaseSet.new (keys c)) (triggerOnAnyKey c) = true →
  invokes i (snd (handleKeyDown commands pressedKeys e)) = requestsRepeat c.

(** ** Sample inputs *)

Definition keyEvent (k : string) : KeyboardEvent :=
  {| key := k; ctrlKey := false; shiftKey := false; altKey := false; metaKey := false |}.

Definition command (ks : list string) (cb : Callback) : useKeysCommand :=
  {| keys := ks; callback := cb; triggerOnAnyKey := None; modifiers := None;
     preventDefault := None; otherProps := [] |}.

(** The three commands of the README. *)
Definition arrows : useKeysCommand :=
  {| keys := ["ArrowRight"; "ArrowLeft"]; callback := 0; triggerOnAnyKey := Some true;
     modifiers := None; preventDefault := None; otherProps := [] |}.

Definition save : useKeysCommand :=
  {| keys := ["s"]; callback := 1; triggerOnAnyKey := None;
     modifiers := Some [("Control", true)]; preventDefault := Some true;
     otherProps := [] |}.

Definition moveRight : useKeysCommand :=
  {| keys := ["ArrowRight"]; callback := 2; triggerOnAnyKey := None;
     modifiers := None; preventDefault := None;
     otherProps := [("enableKeyRepeatOnHold", true)] |}.

(** ** The earlier, single-command hook

    The version of [useKeys] that takes one command ([useKeysProp]) and
    reads the modifiers from the raw flags of the event: it calls
    [preventDefault] before it looks at the held keys, keeps the listed keys
    in a plain [Set] and lowers the event key itself.  It also logs the held
    keys on every new key-down. *)

Module EarlierUseKeys.

(** [type KeyModifier = "ctrlKey" | "shiftKey" | "altKey" | "metaKey"]. *)
Inductive KeyModifier : Type :=
| CtrlKey
| ShiftKey
| AltKey
| MetaKey.

(** [e[modifier]]. *)
Definition flagOf (e : KeyboardEvent) (modifier : KeyModifier) : bool :=
  match modifier with
  | CtrlKey => ctrlKey e
  | ShiftKey => shiftKey e
  | AltKey => altKey e
  | MetaKey => metaKey e
  end.

Record useKeysProp : Type := {
  keys : list string;
  callback : Callback;
  triggerOnAnyKey : option bool;
  modifiers : option (list (KeyModifier * bool));
  preventDefault : option bool
}.

Inductive Effect : Type :=
| PreventDefault (e : KeyboardEvent)
| ConsoleLog (pressedKeys : gset string)
| Invoke (cb : Callback) (e : KeyboardEvent).

(** [new Set(keys)]: the keys as they are written. *)
Definition keysSet (prop : useKeysProp) : gset string :=
  list_to_set (keys prop).

Definition useKeys (prop : useKeysProp) : Error + gset string :=
  if Nat.eqb (size (keysSet prop)) 0
  then inl (ErrorMsg "useKeys: keys array cannot be empty")
  else inr ∅.

(** [modifiers = {}] when the property is absent. *)
Definition checkModifiers (prop : useKeysProp) (e : KeyboardEvent) : bool :=
  forallb (fun '(modifier, required) => Bool.eqb required (flagOf e modifier))
          (default [] (modifiers prop)).

Definition checkKeys (prop : useKeysProp) (pressedKeys : gset string) : bool :=
  if truthy (triggerOnAnyKey prop)
  then existsb (fun k => bool_decide (toLowerCase k ∈ pressedKeys))
               (elements (keysSet prop))
  else forallb (fun k => bool_decide (toLowerCase k ∈ pressedKeys))
               (elements (keysSet prop)).

Definition handleKeyDown (prop : useKeysProp) (pressedKeys : gset string)
    (e : KeyboardEvent) : gset string * list Effect :=
  let k := toLowerCase (key e) in
  let suppressed :=
    if bool_decide (k ∈ keysSet prop) && truthy (preventDefault prop)
    then [PreventDefault e] else [] in
  if negb (bool_decide (k ∈ pressedKeys)) then
    let pressedKeys := {[ k ]} ∪ pressedKeys in
    (pressedKeys,
     suppressed ++ [ConsoleLog pressedKeys]
     ++ (if checkKeys prop pressedKeys && checkModifiers prop e
         then [Invoke (callback prop) e] else []))
  else (pressedKeys, suppressed).

Definition handleKeyUp (pressedKeys : gset string) (e : KeyboardEvent)
    : gset string * list Effect :=
  (pressedKeys ∖ {[ toLowerCase (key e) ]}, []).

Definition handleBlur (pressedKeys : gset string) : gset string * list Effect :=
  (∅, []).

Definition dispatch (prop : useKeysProp) (pressedKeys : gset string)
    (n : Notification) : gset string * list Effect :=
  match n with
  | KeyDown e => handleKeyDown prop pressedKeys e
  | KeyUp e => handleKeyUp pressedKeys e
  | Blur => handleBlur pressedKeys
  end.

Fixpoint run (prop : useKeysProp) (pressedKeys : gset string)
    (ns : list Notification) : gset string * list Effect :=
  match ns with
  | [] => (pressedKeys, [])
  | n :: rest =>
      let '(pressedKeys1, trace1) := dispatch prop pressedKeys n in
      let '(pressedKeys2, trace2) := run prop pressedKeys1 rest in
      (pressedKeys2, trace1 ++ trace2)
  end.

(** The README's save command, as this version takes it. *)
Definition save : useKeysProp :=
  {| keys := ["s"]; callback := 1; triggerOnAnyKey := None;
     modifiers := Some [(CtrlKey, true)]; preventDefault := Some true |}.

End EarlierUseKeys.

(** * Properties *)

(** ** The scenarios of the README, run *)

Example has_after_add :
  LowercaseSet.has (LowercaseSet.add "Control" LowercaseSet.empty) "CONTROL" = true.
Proof. vm_compute. reflexivity. Qed.

Example arrows_right_alone :
  snd (run [arrows] ∅ [KeyDown (keyEvent "ArrowRight")])
  = [Invoke 0 0 (keyEvent "ArrowRight")].
Proof. vm_compute. reflexivity. Qed.

Example arrows_left_after_release :
  snd (run [arrows] ∅ [KeyDown (keyEvent "ArrowRight"); KeyUp (keyEvent "ArrowRight");
                       KeyDown (keyEvent "ArrowLeft")])
  = [Invoke 0 0 (keyEvent "ArrowRight"); Invoke 0 0 (keyEvent "ArrowLeft")].
Proof. vm_compute. reflexivity. Qed.

Example save_needs_control :
  snd (run [save] ∅ [KeyDown (keyEvent "s")]) = [PreventDefault (keyEvent "s")]
  /\ snd (run [save] ∅ [KeyDown (keyEvent "Control"); KeyDown (keyEvent "s")])
     = [PreventDefault (keyEvent "s"); Invoke 0 1 (keyEvent "s")]
  /\ snd (run [save] ∅ [KeyDown (keyEvent "Control"); KeyDown (keyEvent "Shift");
                        KeyDown (keyEvent "S")])
     = [PreventDefault (keyEvent "S"); Invoke 0 1 (keyEvent "S")].
Proof. vm_compute. repeat split. Qed.

(** ** Lower case *)

Lemma lower_ascii_idem (a : ascii) : lower_ascii (lower_ascii a) = lower_ascii a.
Proof.
  destruct a as [b0 b1 b2 b3 b4 b5 b6 b7].
  destruct b0, b1, b2, b3, b4, b5, b6, b7; vm_compute; reflexivity.
Qed.

Lemma toLowerCase_idem (s : string) : toLowerCase (toLowerCase s) = toLowerCase s.
Proof.
  induction s as [|a rest IH]; simpl.
  - reflexivity.
  - rewrite lower_ascii_idem, IH. reflexivity.
Qed.

(** ** The case-insensitive set *)

Module LowercaseSetFacts.
Import LowercaseSet.

Lemma has_true (s : gset string) (value : string) :
  has s value = true ↔ toLowerCase value ∈ s.
Proof. unfold has. apply bool_decide_eq_true. Qed.

Lemma has_false (s : gset string) (value : string) :
  has s value = false ↔ toLowerCase value ∉ s.
Proof. unfold has. apply bool_decide_eq_false. Qed.

Lemma elem_of_add (k value : string) (s : gset string) :
  k ∈ add value s ↔ k = toLowerCase value ∨ k ∈ s.
Proof. unfold add. set_solver. Qed.

Lemma elem_of_delete (k value : string) (s : gset string) :
  k ∈ delete value s ↔ k ∈ s ∧ k ≠ toLowerCase value.
Proof. unfold delete. set_solver. Qed.

Lemma has_add (s : gset string) (value v : string) :
  has (add value s) v = true ↔ toLowerCase v = toLowerCase value ∨ has s v = true.
Proof. rewrite !has_true, elem_of_add. reflexivity. Qed.

Lemma elem_of_fold_add (values : list string) (acc : gset string) (k : string) :
  k ∈ fold_left (fun s value => add value s) values acc
  ↔ k ∈ acc ∨ ∃ v, v ∈ values ∧ k = toLowerCase v.
Proof.
  revert acc. induction values as [|v values IH]; intros acc; simpl.
  - split; [auto|]. intros [H|(v & Hv & _)]; [assumption|].
    by apply elem_of_nil in Hv.
  - rewrite IH, elem_of_add. split.
    + intros [[->|H]|(w & Hw & ->)].
      * right. exists v. split; [left|reflexivity].
      * left. assumption.
      * right. exists w. split; [right; assumption|reflexivity].
    + intros [H|(w & Hw & ->)].
      * left. right. assumption.
      * apply elem_of_cons in Hw as [->|Hw].
        -- left. left. reflexivity.
        -- right. exists w. split; [assumption|reflexivity].
Qed.

(** The constructor stores the lower-case form of each listed key. *)
Lemma elem_of_new (values : list string) (k : string) :
  k ∈ new values ↔ ∃ v, v ∈ values ∧ k = toLowerCase v.
Proof.
  unfold new. rewrite elem_of_fold_add. unfold empty.
  split; [intros [H|H]; [by apply not_elem_of_empty in H|exact H]|auto].
Qed.

Lemma new_is_lower (values : list string) (k : string) :
  k ∈ new values → toLowerCase k = k.
Proof.
  rewrite elem_of_new. intros (v & _ & ->). apply toLowerCase_idem.
Qed.

Lemma has_new (values : list string) (value : string) :
  has (new values) value = true
  ↔ ∃ v, v ∈ values ∧ toLowerCase value = toLowerCase v.
Proof. rewrite has_true, elem_of_new. reflexivity. Qed.

End LowercaseSetFacts.

(** ** Lists built with [map] and read by index *)

Lemma lookup_map {A B : Type} (f : A → B) (l : list A) (i : nat) :
  map f l !! i = f <$> (l !! i).
Proof.
  revert i. induction l as [|x l IH]; intros [|i]; simpl; auto.
Qed.

Lemma lookup_keySets (commands : list useKeysCommand) (i : nat) :
  keySets commands !! i
  = (fun command => LowercaseSet.new (keys command)) <$> (commands !! i).
Proof. apply lookup_map. Qed.

Lemma lookup_commandCallbacks (commands : list useKeysCommand) (i : nat) :
  commandCallbacks commands !! i = callback <$> (commands !! i).
Proof. apply (lookup_map (fun command => callback command)). Qed.

(** ** The match predicates *)

Lemma checkModifiers_spec (pressedKeys : gset string)
    (modifiers : option (list (string * bool))) :
  checkModifiers pressedKeys modifiers = true
  ↔ ∀ modifier required, (modifier, required) ∈ entriesOf modifiers →
      required = LowercaseSet.has pressedKeys modifier.
Proof.
  assert (Hall : forallb (fun '(modifier, required) =>
                   Bool.eqb required (LowercaseSet.has pressedKeys modifier))
                 (entriesOf modifiers) = true
               ↔ ∀ modifier required, (modifier, required) ∈ entriesOf modifiers →
                   required = LowercaseSet.has pressedKeys modifier).
  { rewrite forallb_forall. split.
    - intros H m r Hin. apply list_elem_of_In in Hin.
      specialize (H _ Hin). simpl in H. apply eqb_prop. assumption.
    - intros H [m r] Hin. apply list_elem_of_In in Hin.
      rewrite (H _ _ Hin). apply eqb_reflx. }
  destruct modifiers as [entries|]; simpl in *.
  - destruct entries as [|entry entries]; [|exact Hall].
    simpl. split; [|reflexivity]. intros _ m r H. by apply elem_of_nil in H.
  - split; [|reflexivity]. intros _ m r H. by apply elem_of_nil in H.
Qed.

Lemma checkKeys_all (pressedKeys keySet : gset string) (flag : option bool) :
  default false flag = false →
  checkKeys pressedKeys keySet flag = true
  ↔ ∀ k, k ∈ keySet → LowercaseSet.has pressedKeys k = true.
Proof.
  intros Hflag. unfold checkKeys. rewrite Hflag, forallb_forall.
  split; intros H k Hk.
  - apply H, list_elem_of_In, elem_of_elements, Hk.
  - apply H, elem_of_elements, list_elem_of_In, Hk.
Qed.

Lemma checkKeys_any (pressedKeys keySet : gset string) (flag : option bool) :
  default false flag = true →
  checkKeys pressedKeys keySet flag = true
  ↔ ∃ k, k ∈ keySet ∧ LowercaseSet.has pressedKeys k = true.
Proof.
  intros Hflag. unfold checkKeys. rewrite Hflag, existsb_exists.
  split; intros (k & Hk & Hhas); exists k; split; try assumption.
  - apply elem_of_elements, list_elem_of_In, Hk.
  - apply list_elem_of_In, elem_of_elements, Hk.
Qed.

(** ** One key-down, effect by effect *)

Lemma In_Invoke_keyDownAt (commands : list useKeysCommand) (pressedKeys : gset string)
    (e e' : KeyboardEvent) (i j : nat) (cb : Callback) :
  In (Invoke i cb e') (keyDownAt commands pressedKeys e j)
  ↔ i = j ∧ e' = e ∧
    ∃ c, commands !! j = Some c ∧ cb = callback c
         ∧ checkModifiers pressedKeys (modifiers c) = true
         ∧ checkKeys pressedKeys (LowercaseSet.new (keys c)) (triggerOnAnyKey c) = true.
Proof.
  unfold keyDownAt. rewrite lookup_keySets, lookup_commandCallbacks.
  destruct (commands !! j) as [c|]; simpl.
  - rewrite in_app_iff. split.
    + intros [H|H].
      * destruct (truthy (preventDefault c) && _); simpl in H; [|contradiction].
        destruct H as [H|[]]. discriminate H.
      * destruct (checkModifiers pressedKeys (modifiers c)) eqn:Hm; simpl in H;
          [|contradiction].
        destruct (checkKeys pressedKeys _ (triggerOnAnyKey c)) eqn:Hk; simpl in H;
          [|contradiction].
        destruct H as [H|[]]. injection H as <- <- <-.
        repeat split. exists c. auto.
    + intros (-> & -> & c' & Hc & -> & Hm & Hk). injection Hc as <-.
      right. rewrite Hm, Hk. simpl. left. reflexivity.
  - split; [intros []|]. intros (_ & _ & c & Hc & _). discriminate Hc.
Qed.

Lemma In_PreventDefault_keyDownAt (commands : list useKeysCommand)
    (pressedKeys : gset string) (e e' : KeyboardEvent) (j : nat) :
  In (PreventDefault e') (keyDownAt commands pressedKeys e j)
  ↔ e' = e ∧
    ∃ c, commands !! j = Some c ∧ preventDefault c = Some true
         ∧ LowercaseSet.has (LowercaseSet.new (keys c)) (key e) = true.
Proof.
  unfold keyDownAt. rewrite lookup_keySets, lookup_commandCallbacks.
  destruct (commands !! j) as [c|]; simpl.
  - rewrite in_app_iff. split.
    + intros [H|H].
      * destruct (truthy (preventDefault c)) eqn:Hp; simpl in H; [|contradiction].
        destruct (LowercaseSet.has _ (key e)) eqn:Hh; simpl in H; [|contradiction].
        destruct H as [H|[]]. injection H as <-.
        split; [reflexivity|]. exists c. repeat split; try assumption.
        destruct (preventDefault c) as [[]|]; simpl in Hp; congruence.
      * destruct (negb (checkModifiers pressedKeys (modifiers c))); [contradiction|].
        destruct (negb (checkKeys pressedKeys _ (triggerOnAnyKey c))); [contradiction|].
        destruct H as [H|[]]. discriminate H.
    + intros (-> & c' & Hc & Hp & Hh). injection Hc as <-.
      left. rewrite Hp, Hh. simpl. left. reflexivity.
  - split; [intros []|]. intros (_ & c & Hc & _). discriminate Hc.
Qed.

Lemma invokes_In (i : nat) (trace : list Effect) :
  invokes i trace = true ↔ ∃ cb e, In (Invoke i cb e) trace.
Proof.
  unfold invokes. rewrite existsb_exists. split.
  - intros ([e|j cb e] & Hin & H); [discriminate H|].
    apply Nat.eqb_eq in H as <-. eauto.
  - intros (cb & e & Hin). exists (Invoke i cb e). split; [assumption|].
    apply Nat.eqb_refl.
Qed.

Lemma suppresses_In (trace : list Effect) :
  suppresses trace = true ↔ ∃ e, In (PreventDefault e) trace.
Proof.
  unfold suppresses. rewrite existsb_exists. split.
  - intros ([e|j cb e] & Hin & H); [eauto|discriminate H].
  - intros (e & Hin). exists (PreventDefault e). auto.
Qed.

Lemma In_Invoke_evaluate (commands : list useKeysCommand) (pressedKeys : gset string)
    (e e' : KeyboardEvent) (i : nat) (cb : Callback) :
  In (Invoke i cb e') (evaluate commands pressedKeys e)
  ↔ e' = e ∧
    ∃ c, commands !! i = Some c ∧ cb = callback c
         ∧ checkModifiers pressedKeys (modifiers c) = true
         ∧ checkKeys pressedKeys (LowercaseSet.new (keys c)) (triggerOnAnyKey c) = true.
Proof.
  unfold evaluate. rewrite in_flat_map. split.
  - intros (j & _ & H). apply In_Invoke_keyDownAt in H as (-> & -> & H). auto.
  - intros (-> & c & Hc & H). exists i. split.
    + apply in_seq. apply lookup_lt_Some in Hc. lia.
    + apply In_Invoke_keyDownAt. repeat split. exists c. auto.
Qed.

Lemma In_PreventDefault_evaluate (commands : list useKeysCommand)
    (pressedKeys : gset string) (e e' : KeyboardEvent) :
  In (PreventDefault e') (evaluate commands pressedKeys e)
  ↔ e' = e ∧
    ∃ j c, commands !! j = Some c ∧ preventDefault c = Some true
           ∧ LowercaseSet.has (LowercaseSet.new (keys c)) (key e) = true.
Proof.
  unfold evaluate. rewrite in_flat_map. split.
  - intros (j & _ & H). apply In_PreventDefault_keyDownAt in H as (-> & H).
    split; [reflexivity|]. exists j. exact H.
  - intros (-> & j & c & Hc & H). exists j. split.
    + apply in_seq. apply lookup_lt_Some in Hc. lia.
    + apply In_PreventDefault_keyDownAt. split; [reflexivity|]. exists c. auto.
Qed.

Lemma handleKeyDown_fresh (commands : list useKeysCommand) (pressedKeys : gset string)
    (e : KeyboardEvent) :
  LowercaseSet.has pressedKeys (key e) = false →
  handleKeyDown commands pressedKeys e
  = (LowercaseSet.add (key e) pressedKeys,
     evaluate commands (LowercaseSet.add (key e) pressedKeys) e).
Proof. intros H. unfold handleKeyDown. rewrite H. reflexivity. Qed.

Lemma handleKeyDown_held (commands : list useKeysCommand) (pressedKeys : gset string)
    (e : KeyboardEvent) :
  LowercaseSet.has pressedKeys (key e) = true →
  handleKeyDown commands pressedKeys e = (pressedKeys, []).
Proof. intros H. unfold handleKeyDown. rewrite H. reflexivity. Qed.

(** Whether command [i] is called on a key-down that adds its key. *)
Lemma invokes_evaluate (commands : list useKeysCommand) (pressedKeys : gset string)
    (e : KeyboardEvent) (i : nat) (c : useKeysCommand) :
  commands !! i = Some c →
  invokes i (evaluate commands pressedKeys e)
  = checkModifiers pressedKeys (modifiers c)
    && checkKeys pressedKeys (LowercaseSet.new (keys c)) (triggerOnAnyKey c).
Proof.
  intros Hc. apply eq_true_iff_eq.
  rewrite invokes_In, andb_true_iff. split.
  - intros (cb & e' & H). apply In_Invoke_evaluate in H as (_ & c' & Hc' & _ & H).
    rewrite Hc in Hc'. injection Hc' as <-. exact H.
  - intros [Hm Hk]. exists (callback c), e. apply In_Invoke_evaluate.
    split; [reflexivity|]. exists c. auto.
Qed.

(** A key set stores lower-case keys, so looking one of them up in the held
    keys is plain membership. *)
Lemma has_key_of_keySet (held : gset string) (ks : list string) (k : string) :
  k ∈ LowercaseSet.new ks → (LowercaseSet.has held k = true ↔ k ∈ held).
Proof.
  intros Hk. rewrite LowercaseSetFacts.has_true.
  rewrite (LowercaseSetFacts.new_is_lower ks k Hk). reflexivity.
Qed.

(** ** The key check (C1) *)

(** The two checks, read on the keys and the modifiers as the command
    writes them. *)
Lemma checkKeys_new_keys (pressedKeys : gset string) (ks : list string)
    (flag : option bool) :
  checkKeys pressedKeys (LowercaseSet.new ks) flag = true
  ↔ if default false flag
    then ∃ k, k ∈ ks ∧ toLowerCase k ∈ pressedKeys
    else ∀ k, k ∈ ks → toLowerCase k ∈ pressedKeys.
Proof.
  destruct (default false flag) eqn:Hflag.
  - rewrite (checkKeys_any _ _ _ Hflag). split.
    + intros (k & Hk & H). pose proof Hk as Hk'.
      apply LowercaseSetFacts.elem_of_new in Hk' as (v & Hv & ->).
      exists v. split; [exact Hv|].
      apply (has_key_of_keySet _ ks _ Hk). exact H.
    + intros (v & Hv & H).
      assert (Hk : toLowerCase v ∈ LowercaseSet.new ks)
        by (apply LowercaseSetFacts.elem_of_new; eauto).
      exists (toLowerCase v). split; [exact Hk|].
      apply (has_key_of_keySet _ ks _ Hk). exact H.
  - rewrite (checkKeys_all _ _ _ Hflag). split.
    + intros H v Hv.
      assert (Hk : toLowerCase v ∈ LowercaseSet.new ks)
        by (apply LowercaseSetFacts.elem_of_new; eauto).
      apply (has_key_of_keySet _ ks _ Hk), H, Hk.
    + intros H k Hk. apply (has_key_of_keySet _ ks _ Hk).
      apply LowercaseSetFacts.elem_of_new in Hk as (v & Hv & ->). apply H, Hv.
Qed.

Lemma checkModifiers_held (pressedKeys : gset string)
    (m : option (list (string * bool))) :
  checkModifiers pressedKeys m = true
  ↔ ∀ modifier required, (modifier, required) ∈ entriesOf m →
      required = bool_decide (toLowerCase modifier ∈ pressedKeys).
Proof. exact (checkModifiers_spec pressedKeys m). Qed.

(** A callback recorded at index [i] is the callback of command [i], called
    with the event handled. *)
Lemma Invoke_at_index (commands : list useKeysCommand) (pressedKeys : gset string)
    (e e' : KeyboardEvent) (i : nat) (c : useKeysCommand) (cb : Callback) :
  commands !! i = Some c →
  In (Invoke i cb e') (snd (handleKeyDown commands pressedKeys e)) →
  cb = callback c ∧ e' = e.
Proof.
  intros Hc. unfold handleKeyDown.
  destruct (LowercaseSet.has pressedKeys (key e)); simpl; [intros []|].
  intros H. apply In_Invoke_evaluate in H as (-> & c' & Hc' & -> & _).
  rewrite Hc in Hc'. injection Hc' as <-. auto.
Qed.

(** On a key-down of a key that is not held, command [i] is called, with its
    own callback and this event, iff its modifiers and its keys are
    satisfied by the held keys with the new key added. *)
Lemma called_on_fresh_key_down (commands : list useKeysCommand)
    (pressedKeys : gset string) (e : KeyboardEvent) (i : nat) (c : useKeysCommand) :
  commands !! i = Some c →
  LowercaseSet.has pressedKeys (key e) = false →
  In (Invoke i (callback c) e) (snd (handleKeyDown commands pressedKeys e))
  ↔ (∀ modifier required, (modifier, required) ∈ entriesOf (modifiers c) →
       required
       = bool_decide (toLowerCase modifier ∈ {[ toLowerCase (key e) ]} ∪ pressedKeys))
    ∧ (if default false (triggerOnAnyKey c)
       then ∃ k, k ∈ keys c
                 ∧ toLowerCase k ∈ {[ toLowerCase (key e) ]} ∪ pressedKeys
       else ∀ k, k ∈ keys c
                 → toLowerCase k ∈ {[ toLowerCase (key e) ]} ∪ pressedKeys).
Proof.
  intros Hc Hfresh. rewrite (handleKeyDown_fresh _ _ _ Hfresh). simpl.
  rewrite In_Invoke_evaluate.
  rewrite <- (checkModifiers_held (LowercaseSet.add (key e) pressedKeys)).
  rewrite <- (checkKeys_new_keys (LowercaseSet.add (key e) pressedKeys)).
  split.
  - intros (_ & c' & Hc' & _ & Hm & Hk). rewrite Hc in Hc'. injection Hc' as <-. auto.
  - intros [Hm Hk]. split; [reflexivity|]. exists c. auto.
Qed.

(** C1.  On a key-down whose key is not yet held, for a command whose
    modifier check passes: without [triggerOnAnyKey] its callback is called
    iff every key of its key set is held once the pressed key is added; with
    [triggerOnAnyKey] it is called iff at least one key of its key set is
    held.  The key set is the set of the lower-case forms of the keys the
    command lists, the held keys are the keys held before and the lower-case
    form of the pressed key, and the call is a call of the command's own
    callback with the event of this key-down. *)
Theorem key_check_decides_invocation (commands : list useKeysCommand)
    (pressedKeys : gset string) (e : KeyboardEvent) (i : nat) (c : useKeysCommand) :
  LowercaseSet.has pressedKeys (key e) = false →
  commands !! i = Some c →
  checkModifiers (LowercaseSet.add (key e) pressedKeys) (modifiers c) = true →
  let held := fst (handleKeyDown commands pressedKeys e) in
  let trace := snd (handleKeyDown commands pressedKeys e) in
  let keySet := LowercaseSet.new (keys c) in
  held = LowercaseSet.add (key e) pressedKeys
  ∧ held = {[ toLowerCase (key e) ]} ∪ pressedKeys
  ∧ keySets commands !! i = Some keySet
  ∧ (∀ k, k ∈ keySet ↔ ∃ v, v ∈ keys c ∧ k = toLowerCase v)
  ∧ (∀ cb e', In (Invoke i cb e') trace → cb = callback c ∧ e' = e)
  ∧ (invokes i trace = true ↔ In (Invoke i (callback c) e) trace)
  ∧ (default false (triggerOnAnyKey c) = false →
       (invokes i trace = true ↔ ∀ k, k ∈ keySet → k ∈ held)
       ∧ (In (Invoke i (callback c) e) trace ↔ ∀ k, k ∈ keySet → k ∈ held)
       ∧ (In (Invoke i (callback c) e) trace
          ↔ ∀ v, v ∈ keys c → toLowerCase v ∈ {[ toLowerCase (key e) ]} ∪ pressedKeys))
  ∧ (default false (triggerOnAnyKey c) = true →
       (invokes i trace = true ↔ ∃ k, k ∈ keySet ∧ k ∈ held)
       ∧ (In (Invoke i (callback c) e) trace ↔ ∃ k, k ∈ keySet ∧ k ∈ held)
       ∧ (In (Invoke i (callback c) e) trace
          ↔ ∃ v, v ∈ keys c
                 ∧ toLowerCase v ∈ {[ toLowerCase (key e) ]} ∪ pressedKeys)).
Proof.
  intros Hfresh Hc Hmod held trace keySet.
  assert (Hheld : held = LowercaseSet.add (key e) pressedKeys).
  { subst held. rewrite (handleKeyDown_fresh _ _ _ Hfresh). reflexivity. }
  assert (Hsame : ∀ cb e', In (Invoke i cb e') trace → cb = callback c ∧ e' = e).
  { intros cb e'. apply Invoke_at_index, Hc. }
  assert (Hinv : invokes i trace = true ↔ In (Invoke i (callback c) e) trace).
  { rewrite invokes_In. split.
    - intros (cb & e' & H). destruct (Hsame _ _ H) as [-> ->]. exact H.
    - intros H. eauto. }
  assert (Hcall : In (Invoke i (callback c) e) trace
                  ↔ if default false (triggerOnAnyKey c)
                    then ∃ v, v ∈ keys c
                              ∧ toLowerCase v ∈ {[ toLowerCase (key e) ]} ∪ pressedKeys
                    else ∀ v, v ∈ keys c
                              → toLowerCase v ∈ {[ toLowerCase (key e) ]} ∪ pressedKeys).
  { subst trace. rewrite (called_on_fresh_key_down _ _ _ _ _ Hc Hfresh).
    split; [intros [_ H]; exact H|]. intros H. split; [|exact H].
    apply checkModifiers_held. exact Hmod. }
  assert (Hset : ∀ k, k ∈ keySet ↔ ∃ v, v ∈ keys c ∧ k = toLowerCase v).
  { intros k. apply LowercaseSetFacts.elem_of_new. }
  split; [exact Hheld|]. split; [exact Hheld|].
  split; [rewrite lookup_keySets, Hc; reflexivity|].
  split; [exact Hset|]. split; [exact Hsame|]. split; [exact Hinv|].
  rewrite Hheld. unfold LowercaseSet.add.
  split; intros Hflag; rewrite Hflag in Hcall.
  - assert (Hks : In (Invoke i (callback c) e) trace
                  ↔ ∀ k, k ∈ keySet → k ∈ {[ toLowerCase (key e) ]} ∪ pressedKeys).
    { rewrite Hcall. split.
      - intros H k Hk. apply Hset in Hk as (v & Hv & ->). apply H, Hv.
      - intros H v Hv. apply H, Hset. eauto. }
    split; [rewrite Hinv; exact Hks|]. split; [exact Hks|exact Hcall].
  - assert (Hks : In (Invoke i (callback c) e) trace
                  ↔ ∃ k, k ∈ keySet ∧ k ∈ {[ toLowerCase (key e) ]} ∪ pressedKeys).
    { rewrite Hcall. split.
      - intros (v & Hv & H). exists (toLowerCase v). split; [|exact H].
        apply Hset. eauto.
      - intros (k & Hk & H). apply Hset in Hk as (v & Hv & ->). eauto. }
    split; [rewrite Hinv; exact Hks|]. split; [exact Hks|exact Hcall].
Qed.

Lemma key_check_decides_invocation_witness :
  let commands := [arrows; command ["a"; "B"] 5] in
  let pressedKeys : gset string := {[ "a" ]} in
  let e := keyEvent "b" in
  let c := command ["a"; "B"] 5 in
  let trace := snd (handleKeyDown commands pressedKeys e) in
  (LowercaseSet.has pressedKeys (key e) = false
   ∧ commands !! 1 = Some c
   ∧ checkModifiers (LowercaseSet.add (key e) pressedKeys) (modifiers c) = true)
  ∧ fst (handleKeyDown commands pressedKeys e) = {[ "b" ]} ∪ {[ "a" ]}
  ∧ ("b" ∈ LowercaseSet.new (keys c))
  ∧ In (Invoke 1 5 e) trace
  ∧ (∀ cb e', In (Invoke 1 cb e') trace → cb = 5 ∧ e' = e).
Proof.
  cbv zeta.
  assert (Hf : LowercaseSet.has ({[ "a" ]} : gset string) (key (keyEvent "b")) = false)
    by (vm_compute; reflexivity).
  destruct (key_check_decides_invocation
              [arrows; command ["a"; "B"] 5] {[ "a" ]} (keyEvent "b") 1
              (command ["a"; "B"] 5) Hf eq_refl eq_refl)
    as (_ & Hheld & _ & Hset & Hsame & _ & Hall & _).
  split; [split; [exact Hf|split; reflexivity]|].
  split; [exact Hheld|]. split.
  { apply Hset. exists "B". split; [right; left|reflexivity]. }
  split; [|exact Hsame].
  destruct (Hall eq_refl) as (_ & _ & Hcall). apply Hcall.
  intros v Hv. apply elem_of_cons in Hv as [->|Hv].
  - apply elem_of_union. right. apply elem_of_singleton. reflexivity.
  - apply elem_of_cons in Hv as [->|Hv]; [|by apply elem_of_nil in Hv].
    apply elem_of_union. left. apply elem_of_singleton. reflexivity.
Defined.

(** With [triggerOnAnyKey], one listed key held is enough; without it, one
    listed key missing is enough to hold the callback back. *)
Example any_key_and_all_keys :
  snd (handleKeyDown [arrows; command ["a"; "B"] 5] ∅ (keyEvent "ArrowLeft"))
  = [Invoke 0 0 (keyEvent "ArrowLeft")]
  ∧ snd (handleKeyDown [arrows; command ["a"; "B"] 5] ∅ (keyEvent "b")) = []
  ∧ snd (handleKeyDown [arrows; command ["a"; "B"] 5] {[ "a" ]} (keyEvent "b"))
    = [Invoke 1 5 (keyEvent "b")].
Proof. repeat split; vm_compute; reflexivity. Qed.

(** ** The modifier check (C2) *)

(** C2.  On a key-down that is evaluated, a command's callback is called
    only when every modifier its map names is held or not as the map
    requires; and a command whose map is absent or empty is called exactly
    when its key check passes, whatever else is held. *)
Theorem modifiers_constrain_invocation (commands : list useKeysCommand)
    (pressedKeys : gset string) (e : KeyboardEvent) (i : nat) (c : useKeysCommand) :
  LowercaseSet.has pressedKeys (key e) = false →
  commands !! i = Some c →
  let held := LowercaseSet.add (key e) pressedKeys in
  let trace := snd (handleKeyDown commands pressedKeys e) in
  (invokes i trace = true →
     ∀ modifier required, (modifier, required) ∈ entriesOf (modifiers c) →
       required = LowercaseSet.has held modifier)
  ∧ (modifiers c = None ∨ modifiers c = Some [] →
       checkModifiers held (modifiers c) = true
       ∧ invokes i trace
         = checkKeys held (LowercaseSet.new (keys c)) (triggerOnAnyKey c)).
Proof.
  intros Hfresh Hc. rewrite (handleKeyDown_fresh _ _ _ Hfresh). simpl.
  rewrite (invokes_evaluate _ _ _ _ _ Hc). split.
  - intros H. apply andb_true_iff in H as [Hm _].
    apply checkModifiers_spec. exact Hm.
  - intros [-> | ->]; simpl; auto.
Qed.

Lemma modifiers_constrain_invocation_witness :
  let commands := [save; command ["s"] 7] in
  let pressedKeys : gset string := {[ "control"; "shift" ]} in
  let e := keyEvent "S" in
  let held := LowercaseSet.add (key e) pressedKeys in
  let trace := snd (handleKeyDown commands pressedKeys e) in
  (LowercaseSet.has pressedKeys (key e) = false ∧ commands !! 0 = Some save)
  ∧ (invokes 0 trace = true →
       ∀ modifier required, (modifier, required) ∈ entriesOf (modifiers save) →
         required = LowercaseSet.has held modifier)
  ∧ (modifiers save = None ∨ modifiers save = Some [] →
       checkModifiers held (modifiers save) = true
       ∧ invokes 0 trace
         = checkKeys held (LowercaseSet.new (keys save)) (triggerOnAnyKey save)).
Proof.
  cbv zeta.
  assert (Hf : LowercaseSet.has ({[ "control"; "shift" ]} : gset string)
                 (key (keyEvent "S")) = false) by (vm_compute; reflexivity).
  split.
  - split; [exact Hf|reflexivity].
  - exact (modifiers_constrain_invocation
             [save; command ["s"] 7] {[ "control"; "shift" ]} (keyEvent "S") 0
             save Hf eq_refl).
Defined.

(** ** Registration (C5) *)

(** C5.  [useKeys] throws its one error, and does nothing else, exactly when
    some command has an empty [keys] array; when every command has a key it
    returns with an empty held-key set. *)
Theorem empty_keys_rejected (commands : list useKeysCommand) :
  ((∃ c, c ∈ commands ∧ keys c = [])
     ↔ useKeys commands = inl (ErrorMsg "Empty keys array is not allowed"))
  ∧ ((∀ c, c ∈ commands → keys c ≠ []) ↔ useKeys commands = inr ∅).
Proof.
  unfold useKeys.
  destruct (existsb (fun cmd => Nat.eqb (length (keys cmd)) 0) commands) eqn:Hex.
  - apply existsb_exists in Hex as (c & Hin & Hlen).
    apply Nat.eqb_eq, length_zero_iff_nil in Hlen. apply list_elem_of_In in Hin.
    split; split; try discriminate; eauto.
    intros H. destruct (H c Hin Hlen).
  - assert (Hall : ∀ c, c ∈ commands → keys c ≠ []).
    { intros c Hin Hnil.
      assert (existsb (fun cmd => Nat.eqb (length (keys cmd)) 0) commands = true)
        as Htrue; [|congruence].
      apply existsb_exists. exists c. split; [apply list_elem_of_In, Hin|].
      rewrite Hnil. reflexivity. }
    split; split; try discriminate; try reflexivity; auto.
    intros (c & Hin & Hnil). destruct (Hall c Hin Hnil).
Qed.

(** ** Key-up (C8) *)

(** C8.  A key-up removes the lower-case form of its key from the held keys
    and does nothing else: every other held key stays, no key is added, no
    callback is called and [preventDefault] is not called. *)
Theorem key_up_only_removes_key (commands : list useKeysCommand)
    (pressedKeys : gset string) (e : KeyboardEvent) :
  let held := fst (dispatch commands pressedKeys (KeyUp e)) in
  let trace := snd (dispatch commands pressedKeys (KeyUp e)) in
  held = (pressedKeys ∖ {[ toLowerCase (key e) ]})
  ∧ (toLowerCase (key e) ∉ held)
  ∧ (∀ k, k ≠ toLowerCase (key e) → (k ∈ held ↔ k ∈ pressedKeys))
  ∧ trace = []
  ∧ (∀ i, invokes i trace = false)
  ∧ suppresses trace = false.
Proof.
  simpl. unfold LowercaseSet.delete. split; [reflexivity|]. split.
  - rewrite elem_of_difference, elem_of_singleton. intros [_ H]. apply H. reflexivity.
  - split; [|auto]. intros k Hk. rewrite elem_of_difference, elem_of_singleton.
    split; [intros [H _]; exact H|auto].
Qed.

(** ** Held keys along a history *)

Lemma sameKey_true (k1 k2 : string) :
  sameKey k1 k2 = true ↔ toLowerCase k1 = toLowerCase k2.
Proof. unfold sameKey. apply String.eqb_eq. Qed.

Lemma sameKey_false (k1 k2 : string) :
  sameKey k1 k2 = false ↔ toLowerCase k1 ≠ toLowerCase k2.
Proof. unfold sameKey. apply String.eqb_neq. Qed.

Lemma has_sameKey (s : gset string) (k1 k2 : string) :
  sameKey k1 k2 = true → LowercaseSet.has s k1 = LowercaseSet.has s k2.
Proof. intros H. apply sameKey_true in H. unfold LowercaseSet.has. rewrite H. reflexivity. Qed.

(** A key-down leaves its key among the held keys, new or not. *)
Lemma handleKeyDown_held_keys (commands : list useKeysCommand)
    (pressedKeys : gset string) (e : KeyboardEvent) :
  fst (handleKeyDown commands pressedKeys e) = LowercaseSet.add (key e) pressedKeys.
Proof.
  unfold handleKeyDown.
  destruct (LowercaseSet.has pressedKeys (key e)) eqn:H; simpl; [|reflexivity].
  apply LowercaseSetFacts.has_true in H. unfold LowercaseSet.add.
  apply set_eq. intros k. rewrite elem_of_union, elem_of_singleton.
  split; [auto|]. intros [->|Hk]; assumption.
Qed.

Lemma run_cons (commands : list useKeysCommand) (pressedKeys : gset string)
    (n : Notification) (ns : list Notification) :
  run commands pressedKeys (n :: ns)
  = (fst (run commands (fst (dispatch commands pressedKeys n)) ns),
     snd (dispatch commands pressedKeys n)
     ++ snd (run commands (fst (dispatch commands pressedKeys n)) ns)).
Proof.
  simpl. destruct (dispatch commands pressedKeys n) as [p1 t1]. simpl.
  destruct (run commands p1 ns) as [p2 t2]. reflexivity.
Qed.

Lemma run_app (commands : list useKeysCommand) (pressedKeys : gset string)
    (ns1 ns2 : list Notification) :
  run commands pressedKeys (ns1 ++ ns2)
  = (fst (run commands (fst (run commands pressedKeys ns1)) ns2),
     snd (run commands pressedKeys ns1)
     ++ snd (run commands (fst (run commands pressedKeys ns1)) ns2)).
Proof.
  revert pressedKeys. induction ns1 as [|n ns1 IH]; intros pressedKeys.
  - simpl. destruct (run commands pressedKeys ns2). reflexivity.
  - rewrite <- app_comm_cons, !run_cons, IH. simpl. rewrite app_assoc. reflexivity.
Qed.

(** One notification, seen from one key. *)
Lemma has_dispatch (commands : list useKeysCommand) (pressedKeys : gset string)
    (n : Notification) (k : string) :
  LowercaseSet.has (fst (dispatch commands pressedKeys n)) k
  = if presses k n then true
    else if releases k n then false
    else LowercaseSet.has pressedKeys k.
Proof.
  destruct n as [e|e|]; simpl.
  - rewrite handleKeyDown_held_keys.
    destruct (sameKey (key e) k) eqn:Hs.
    + apply LowercaseSetFacts.has_add. left. symmetry. apply sameKey_true, Hs.
    + apply sameKey_false in Hs. apply eq_true_iff_eq.
      rewrite LowercaseSetFacts.has_add. split; [|auto].
      intros [H|H]; [|exact H]. destruct Hs. symmetry. exact H.
  - destruct (sameKey (key e) k) eqn:Hs.
    + apply sameKey_true in Hs. apply LowercaseSetFacts.has_false.
      rewrite LowercaseSetFacts.elem_of_delete. intros [_ H]. apply H. symmetry. exact Hs.
    + apply sameKey_false in Hs. apply eq_true_iff_eq.
      rewrite !LowercaseSetFacts.has_true, LowercaseSetFacts.elem_of_delete.
      split; [intros [H _]; exact H|]. intros H. split; [exact H|].
      intros Heq. apply Hs. symmetry. exact Heq.
  - apply LowercaseSetFacts.has_false. unfold LowercaseSet.clear.
    apply not_elem_of_empty.
Qed.

(** The held keys are what the history says: a key is held after [ns] iff
    [recorded] finds it down. *)
Lemma has_run (commands : list useKeysCommand) (ns : list Notification)
    (pressedKeys : gset string) (k : string) :
  LowercaseSet.has (fst (run commands pressedKeys ns)) k
  = recorded k ns (LowercaseSet.has pressedKeys k).
Proof.
  revert pressedKeys. induction ns as [|n ns IH]; intros pressedKeys.
  - reflexivity.
  - rewrite run_cons. simpl. rewrite IH, has_dispatch. reflexivity.
Qed.

(** [recorded], spelled out: the key is down after [ns] iff it was down
    before and nothing in [ns] released it, or [ns] has a key-down of it
    that nothing later released. *)
Lemma recorded_spec (k : string) (ns : list Notification) (held : bool) :
  recorded k ns held = true
  ↔ (held = true ∧ forallb (fun n => negb (releases k n)) ns = true)
    ∨ ∃ before e after,
        ns = before ++ KeyDown e :: after
        ∧ sameKey (key e) k = true
        ∧ forallb (fun n => negb (releases k n)) after = true.
Proof.
  revert held. induction ns as [|n ns IH]; intros held; simpl.
  - split.
    + intros ->. left. auto.
    + intros [[H _]|(before & e & after & H & _)]; [exact H|].
      destruct before; discriminate H.
  - rewrite IH. clear IH. split.
    + intros [[Hheld Hall]|(before & e & after & -> & Hs & Hall)].
      * destruct n as [e|e|]; simpl in *.
        -- destruct (sameKey (key e) k) eqn:Hs.
           ++ right. exists [], e, ns. auto.
           ++ left. auto.
        -- destruct (sameKey (key e) k) eqn:Hs; [discriminate Hheld|]. left. auto.
        -- discriminate Hheld.
      * right. exists (n :: before), e, after. auto.
    + intros [[Hheld Hall]|(before & e & after & Heq & Hs & Hall)].
      * apply andb_true_iff in Hall as [Hn Hall]. left. split; [|exact Hall].
        destruct (presses k n); [reflexivity|].
        apply negb_true_iff in Hn. rewrite Hn. exact Hheld.
      * destruct before as [|n' before]; simpl in Heq.
        -- injection Heq as -> ->. left. simpl. rewrite Hs. auto.
        -- injection Heq as -> ->. right. exists before, e, after. auto.
Qed.

Lemma recorded_after_key_down (k : string) (e : KeyboardEvent)
    (ns : list Notification) (held : bool) :
  sameKey (key e) k = true →
  forallb (fun n => negb (releases k n)) ns = true →
  recorded k (KeyDown e :: ns) held = true.
Proof.
  intros Hs Hall. apply recorded_spec. right. exists [], e, ns. auto.
Qed.

Lemma recorded_never_pressed (k : string) (ns : list Notification) :
  forallb (fun n => negb (presses k n)) ns = true →
  recorded k ns false = false.
Proof.
  induction ns as [|n ns IH]; simpl; [reflexivity|].
  intros H. apply andb_true_iff in H as [Hn Hall].
  apply negb_true_iff in Hn. rewrite Hn.
  destruct (releases k n); apply IH, Hall.
Qed.

(** ** Key-down of a held key (C3) *)

(** C3, as stated, fails.  [moveRight] asks for repeat as the README writes
    it, its key is held after a first key-down and the command matches the
    held keys; the second key-down of the key does not call it. *)
Lemma repeat_request_not_honoured :
  let commands := [moveRight] in
  let e := keyEvent "ArrowRight" in
  let held := fst (run commands ∅ [KeyDown e]) in
  ¬ reinvokedAsRequested commands held e 0 moveRight.
Proof.
  cbv zeta. intros H.
  assert (Hrun : fst (run [moveRight] ∅ [KeyDown (keyEvent "ArrowRight")])
                 = {[ "arrowright" ]}) by (vm_compute; reflexivity).
  rewrite Hrun in H.
  specialize (H eq_refl). vm_compute in H.
  specialize (H eq_refl eq_refl eq_refl). discriminate H.
Qed.

(** C3, amended.  After a key-down of a key, and any further notifications
    none of which is a key-up of that key or a blur, a key-down of the same
    key (in any letter case) leaves the held keys as they are and calls
    nothing: no callback of any command, whatever properties the command
    carries, and not [preventDefault]. *)
Theorem held_key_down_does_nothing (commands : list useKeysCommand)
    (pressedKeys : gset string) (e e' : KeyboardEvent) (ns : list Notification) :
  forallb (fun n => negb (releases (key e) n)) ns = true →
  sameKey (key e') (key e) = true →
  let held := fst (run commands pressedKeys (KeyDown e :: ns)) in
  LowercaseSet.has held (key e') = true
  ∧ handleKeyDown commands held e' = (held, [])
  ∧ ∀ i, invokes i (snd (handleKeyDown commands held e')) = false.
Proof.
  intros Hall Hs held.
  assert (Hheld : LowercaseSet.has held (key e') = true).
  { subst held. rewrite (has_sameKey _ _ _ Hs), has_run.
    apply recorded_after_key_down; [|exact Hall].
    unfold sameKey. apply String.eqb_refl. }
  split; [exact Hheld|].
  rewrite (handleKeyDown_held _ _ _ Hheld). auto.
Qed.

Lemma held_key_down_does_nothing_witness :
  let commands := [moveRight; arrows] in
  let e := keyEvent "ArrowRight" in
  let e' := keyEvent "ARROWRIGHT" in
  let ns := [KeyDown (keyEvent "a"); KeyUp (keyEvent "a")] in
  let held := fst (run commands ∅ (KeyDown e :: ns)) in
  (forallb (fun n => negb (releases (key e) n)) ns = true
   ∧ sameKey (key e') (key e) = true)
  ∧ (LowercaseSet.has held (key e') = true
     ∧ handleKeyDown commands held e' = (held, [])
     ∧ ∀ i, invokes i (snd (handleKeyDown commands held e')) = false).
Proof.
  cbv zeta. split.
  - split; reflexivity.
  - exact (held_key_down_does_nothing [moveRight; arrows] ∅
             (keyEvent "ArrowRight") (keyEvent "ARROWRIGHT")
             [KeyDown (keyEvent "a"); KeyUp (keyEvent "a")] eq_refl eq_refl).
Defined.

(** ** Suppressing the default action (C4) *)

(** On a key-down of a key that is not yet held, [preventDefault] is called
    iff some command has [preventDefault] set and the key in its key set:
    nothing about modifiers or other keys enters. *)
Lemma suppresses_fresh_key_down (commands : list useKeysCommand)
    (pressedKeys : gset string) (e : KeyboardEvent) :
  LowercaseSet.has pressedKeys (key e) = false →
  suppresses (snd (handleKeyDown commands pressedKeys e)) = true
  ↔ ∃ j c, commands !! j = Some c ∧ preventDefault c = Some true
           ∧ LowercaseSet.has (LowercaseSet.new (keys c)) (key e) = true.
Proof.
  intros Hfresh. rewrite (handleKeyDown_fresh _ _ _ Hfresh). simpl.
  rewrite suppresses_In. split.
  - intros (e' & H). apply In_PreventDefault_evaluate in H as [_ H]. exact H.
  - intros H. exists e. apply In_PreventDefault_evaluate. auto.
Qed.

(** C4, at an input where the code departs from it.  [save] has
    [preventDefault] set and "s" in its key set.  With Control held, the
    first key-down of "s" calls [preventDefault] and the callback; the next
    key-down of "s", the key still held, calls neither. *)
Theorem held_key_down_default_not_suppressed :
  let commands := [save] in
  let e := keyEvent "s" in
  let before := fst (run commands ∅ [KeyDown (keyEvent "Control")]) in
  let held := fst (handleKeyDown commands before e) in
  preventDefault save = Some true
  ∧ LowercaseSet.has (LowercaseSet.new (keys save)) (key e) = true
  ∧ snd (handleKeyDown commands before e) = [PreventDefault e; Invoke 0 1 e]
  ∧ LowercaseSet.has held (key e) = true
  ∧ handleKeyDown commands held e = (held, [])
  ∧ suppresses (snd (handleKeyDown commands held e)) = false.
Proof.
  cbv zeta.
  assert (Hheld : fst (handleKeyDown [save]
                         (fst (run [save] ∅ [KeyDown (keyEvent "Control")]))
                         (keyEvent "s")) = {[ "control"; "s" ]})
    by (vm_compute; reflexivity).
  rewrite Hheld.
  repeat split; vm_compute; reflexivity.
Qed.

(** ** Focus loss (C7) *)

(** C7.  A blur empties the held keys.  After a blur, and any further
    notifications none of which is a key-down of the key, a key-down of a
    key (held before the blur or not) finds it not held: the key is added,
    and the commands are evaluated on the held keys with the key added.
    Each command is called, with its own callback and this event, iff its
    modifiers and its keys are satisfied by those held keys; in particular a
    command without modifiers that lists this key alone is called; and
    [preventDefault] is called iff some command has it set and lists the
    key. *)
Theorem blur_makes_key_down_fresh (commands : list useKeysCommand)
    (pressedKeys : gset string) (ns : list Notification) (e : KeyboardEvent) :
  forallb (fun n => negb (presses (key e) n)) ns = true →
  let held := fst (run commands pressedKeys (Blur :: ns)) in
  let trace := snd (handleKeyDown commands held e) in
  handleBlur pressedKeys = (∅, [])
  ∧ LowercaseSet.has held (key e) = false
  ∧ handleKeyDown commands held e
    = (LowercaseSet.add (key e) held,
       evaluate commands (LowercaseSet.add (key e) held) e)
  ∧ toLowerCase (key e) ∈ fst (handleKeyDown commands held e)
  ∧ (∀ k, k ∉ fst (run commands pressedKeys [Blur]))
  ∧ (toLowerCase (key e) ∉ held)
  ∧ fst (handleKeyDown commands held e) = {[ toLowerCase (key e) ]} ∪ held
  ∧ (∀ i c, commands !! i = Some c →
       (In (Invoke i (callback c) e) trace
        ↔ (∀ modifier required, (modifier, required) ∈ entriesOf (modifiers c) →
             required
             = bool_decide (toLowerCase modifier ∈ {[ toLowerCase (key e) ]} ∪ held))
          ∧ (if default false (triggerOnAnyKey c)
             then ∃ k, k ∈ keys c ∧ toLowerCase k ∈ {[ toLowerCase (key e) ]} ∪ held
             else ∀ k, k ∈ keys c → toLowerCase k ∈ {[ toLowerCase (key e) ]} ∪ held)))
  ∧ (∀ i c, commands !! i = Some c →
       modifiers c = None →
       keys c ≠ [] →
       (∀ k, k ∈ keys c → sameKey k (key e) = true) →
       In (Invoke i (callback c) e) trace)
  ∧ (In (PreventDefault e) trace
     ↔ ∃ j c, commands !! j = Some c ∧ preventDefault c = Some true
              ∧ ∃ k, k ∈ keys c ∧ sameKey (key e) k = true).
Proof.
  intros Hall held trace.
  assert (Hfresh : LowercaseSet.has held (key e) = false).
  { subst held. rewrite has_run. simpl. apply recorded_never_pressed, Hall. }
  assert (Hcalled : ∀ i c, commands !! i = Some c →
            (In (Invoke i (callback c) e) trace
             ↔ (∀ modifier required, (modifier, required) ∈ entriesOf (modifiers c) →
                  required
                  = bool_decide (toLowerCase modifier ∈ {[ toLowerCase (key e) ]} ∪ held))
               ∧ (if default false (triggerOnAnyKey c)
                  then ∃ k, k ∈ keys c
                            ∧ toLowerCase k ∈ {[ toLowerCase (key e) ]} ∪ held
                  else ∀ k, k ∈ keys c
                            → toLowerCase k ∈ {[ toLowerCase (key e) ]} ∪ held))).
  { intros i c Hc. subst trace. apply called_on_fresh_key_down; assumption. }
  split; [reflexivity|]. split; [exact Hfresh|].
  split; [apply handleKeyDown_fresh, Hfresh|].
  split.
  { rewrite (handleKeyDown_fresh _ _ _ Hfresh). simpl.
    apply LowercaseSetFacts.elem_of_add. left. reflexivity. }
  split; [intros k; simpl; apply not_elem_of_empty|].
  split; [apply LowercaseSetFacts.has_false, Hfresh|].
  split; [rewrite (handleKeyDown_fresh _ _ _ Hfresh); reflexivity|].
  split; [exact Hcalled|]. split.
  - intros i c Hc Hm Hne Hkeys. apply (Hcalled i c Hc). split.
    + rewrite Hm. intros modifier required Hin. by apply elem_of_nil in Hin.
    + assert (Hin : ∀ k, k ∈ keys c
                         → toLowerCase k ∈ {[ toLowerCase (key e) ]} ∪ held).
      { intros k Hk. apply elem_of_union. left. apply elem_of_singleton.
        apply sameKey_true, Hkeys, Hk. }
      destruct (default false (triggerOnAnyKey c)); [|exact Hin].
      destruct (keys c) as [|k ks]; [destruct (Hne eq_refl)|].
      exists k. split; [left|]. apply Hin. left.
  - subst trace. rewrite (handleKeyDown_fresh _ _ _ Hfresh). simpl.
    rewrite In_PreventDefault_evaluate. split.
    + intros (_ & j & c & Hc & Hp & Hh). exists j, c. split; [exact Hc|].
      split; [exact Hp|]. apply LowercaseSetFacts.has_new in Hh as (k & Hk & Hs).
      exists k. split; [exact Hk|]. apply sameKey_true, Hs.
    + intros (j & c & Hc & Hp & k & Hk & Hs). split; [reflexivity|].
      exists j, c. split; [exact Hc|]. split; [exact Hp|].
      apply LowercaseSetFacts.has_new. exists k. split; [exact Hk|].
      apply sameKey_true, Hs.
Qed.

Lemma blur_makes_key_down_fresh_witness :
  let commands := [arrows] in
  let pressedKeys : gset string := {[ "arrowleft"; "shift" ]} in
  let ns := [KeyUp (keyEvent "Shift")] in
  let e := keyEvent "ArrowLeft" in
  let held := fst (run commands pressedKeys (Blur :: ns)) in
  (toLowerCase (key e) ∈ pressedKeys
   ∧ forallb (fun n => negb (presses (key e) n)) ns = true)
  ∧ (toLowerCase (key e) ∉ held)
  ∧ fst (handleKeyDown commands held e) = {[ "arrowleft" ]} ∪ held
  ∧ In (Invoke 0 0 e) (snd (handleKeyDown commands held e))
  ∧ handleKeyDown commands pressedKeys e = (pressedKeys, []).
Proof.
  cbv zeta.
  destruct (blur_makes_key_down_fresh [arrows] {[ "arrowleft"; "shift" ]}
              [KeyUp (keyEvent "Shift")] (keyEvent "ArrowLeft") eq_refl)
    as (_ & _ & _ & _ & _ & Hout & Hheld & Hcalled & _).
  split; [split; [vm_compute; reflexivity|reflexivity]|].
  split; [exact Hout|]. split; [exact Hheld|]. split.
  - apply (Hcalled 0 arrows eq_refl). split.
    + intros modifier required Hin. by apply elem_of_nil in Hin.
    + exists "ArrowLeft". split; [right; left|].
      apply elem_of_union. left. apply elem_of_singleton. reflexivity.
  - vm_compute. reflexivity.
Defined.

Example blur_then_arrow_left :
  run [arrows] {[ "arrowleft" ]} [KeyDown (keyEvent "ArrowLeft")] = ({[ "arrowleft" ]}, [])
  ∧ run [arrows] {[ "arrowleft" ]} [Blur; KeyDown (keyEvent "ArrowLeft")]
    = ({[ "arrowleft" ]}, [Invoke 0 0 (keyEvent "ArrowLeft")]).
Proof. split; vm_compute; reflexivity. Qed.

(** ** Modifiers come from the held keys (C9) *)

(** The raw flags of the event are not read: two key-downs with the same
    key do the same to the held keys and call the same callbacks. *)
Lemma keyDownAt_flags (commands : list useKeysCommand) (pressedKeys : gset string)
    (e e' : KeyboardEvent) (j : nat) :
  key e' = key e →
  map shape (keyDownAt commands pressedKeys e' j)
  = map shape (keyDownAt commands pressedKeys e j).
Proof.
  intros Hk. unfold keyDownAt. rewrite Hk.
  destruct (commands !! j) as [c|]; [|reflexivity].
  destruct (keySets commands !! j) as [ks|]; [|reflexivity].
  destruct (commandCallbacks commands !! j) as [cb|]; [|reflexivity].
  rewrite !map_app. f_equal.
  - destruct (truthy (preventDefault c) && LowercaseSet.has ks (key e)); reflexivity.
  - destruct (negb (checkModifiers pressedKeys (modifiers c))); [reflexivity|].
    destruct (negb (checkKeys pressedKeys ks (triggerOnAnyKey c))); reflexivity.
Qed.

Lemma map_shape_flat_map (f g : nat → list Effect) (l : list nat) :
  (∀ j, map shape (f j) = map shape (g j)) →
  map shape (flat_map f l) = map shape (flat_map g l).
Proof.
  intros H. induction l as [|j l IH]; simpl; [reflexivity|].
  rewrite !map_app, H, IH. reflexivity.
Qed.

Lemma handleKeyDown_flags (commands : list useKeysCommand) (pressedKeys : gset string)
    (e e' : KeyboardEvent) :
  key e' = key e →
  fst (handleKeyDown commands pressedKeys e') = fst (handleKeyDown commands pressedKeys e)
  ∧ map shape (snd (handleKeyDown commands pressedKeys e'))
    = map shape (snd (handleKeyDown commands pressedKeys e)).
Proof.
  intros Hk. unfold handleKeyDown. rewrite Hk.
  destruct (LowercaseSet.has pressedKeys (key e)); simpl; [auto|].
  split; [reflexivity|]. unfold evaluate. apply map_shape_flat_map.
  intros j. apply keyDownAt_flags, Hk.
Qed.

Lemma invokes_shape (i : nat) (t1 t2 : list Effect) :
  map shape t1 = map shape t2 → invokes i t1 = invokes i t2.
Proof.
  revert t2. induction t1 as [|a t1 IH]; intros [|b t2] H; try discriminate H.
  - reflexivity.
  - simpl in H. injection H as Hab Ht. simpl. rewrite (IH _ Ht).
    destruct a, b; simpl in Hab; try discriminate Hab; [reflexivity|].
    injection Hab as -> _. reflexivity.
Qed.

(** C9.  The modifier check reads the held keys, not the flags of the
    event.  Starting with no key held, if a command that requires a modifier
    to be [true] is called on a key-down, then the history up to and
    including this key-down has a key-down of that modifier's key name (in
    any letter case) with no key-up of it and no blur after it.  And key-downs
    that differ in their raw flags only do the same to the held keys and
    call the same callbacks. *)
Theorem modifiers_read_from_held_keys (commands : list useKeysCommand)
    (ns : list Notification) (e : KeyboardEvent) :
  let pressedKeys := fst (run commands ∅ ns) in
  (∀ i c modifier,
     commands !! i = Some c →
     (modifier, true) ∈ entriesOf (modifiers c) →
     invokes i (snd (handleKeyDown commands pressedKeys e)) = true →
     LowercaseSet.has (fst (handleKeyDown commands pressedKeys e)) modifier = true
     ∧ ∃ before e0 after,
         ns ++ [KeyDown e] = before ++ KeyDown e0 :: after
         ∧ sameKey (key e0) modifier = true
         ∧ forallb (fun n => negb (releases modifier n)) after = true)
  ∧ (∀ e', key e' = key e →
       fst (handleKeyDown commands pressedKeys e')
       = fst (handleKeyDown commands pressedKeys e)
       ∧ ∀ i, invokes i (snd (handleKeyDown commands pressedKeys e'))
              = invokes i (snd (handleKeyDown commands pressedKeys e))).
Proof.
  intros pressedKeys. split.
  - intros i c modifier Hc Hin Hinv.
    assert (Hheld : LowercaseSet.has (fst (handleKeyDown commands pressedKeys e))
                      modifier = true).
    { rewrite handleKeyDown_held_keys.
      destruct (LowercaseSet.has pressedKeys (key e)) eqn:Hold.
      - rewrite (handleKeyDown_held _ _ _ Hold) in Hinv. discriminate Hinv.
      - rewrite (handleKeyDown_fresh _ _ _ Hold) in Hinv. simpl in Hinv.
        rewrite (invokes_evaluate _ _ _ _ _ Hc) in Hinv.
        apply andb_true_iff in Hinv as [Hm _].
        symmetry. apply (proj1 (checkModifiers_spec _ _) Hm). exact Hin. }
    split; [exact Hheld|].
    assert (Hrec : recorded modifier (ns ++ [KeyDown e]) false = true).
    { rewrite <- Hheld. symmetry.
      pose proof (has_run commands (ns ++ [KeyDown e]) ∅ modifier) as Hrun.
      rewrite run_app in Hrun. simpl in Hrun.
      destruct (handleKeyDown commands (fst (run commands ∅ ns)) e) as [p t] eqn:Hd.
      simpl in Hrun. subst pressedKeys. rewrite Hd. simpl. rewrite Hrun.
      f_equal. }
    apply recorded_spec in Hrec as [[Hfalse _]|H]; [discriminate Hfalse|exact H].
  - intros e' Hk. destruct (handleKeyDown_flags commands pressedKeys e e' Hk) as [Hs Ht].
    split; [exact Hs|]. intros i. apply invokes_shape, Ht.
Qed.

Lemma modifiers_read_from_held_keys_witness :
  let commands := [save] in
  let ns := [KeyDown (keyEvent "Control")] in
  let e := keyEvent "s" in
  let pressedKeys := fst (run commands ∅ ns) in
  (commands !! 0 = Some save
   ∧ ("Control", true) ∈ entriesOf (modifiers save)
   ∧ invokes 0 (snd (handleKeyDown commands pressedKeys e)) = true)
  ∧ (LowercaseSet.has (fst (handleKeyDown commands pressedKeys e)) "Control" = true
     ∧ ∃ before e0 after,
         ns ++ [KeyDown e] = before ++ KeyDown e0 :: after
         ∧ sameKey (key e0) "Control" = true
         ∧ forallb (fun n => negb (releases "Control" n)) after = true).
Proof.
  cbv zeta.
  assert (H1 : [save] !! 0 = Some save) by reflexivity.
  assert (H2 : ("Control", true) ∈ entriesOf (modifiers save)) by (simpl; left).
  assert (H3 : invokes 0 (snd (handleKeyDown [save]
                                 (fst (run [save] ∅ [KeyDown (keyEvent "Control")]))
                                 (keyEvent "s"))) = true)
    by (vm_compute; reflexivity).
  split.
  - auto.
  - exact (proj1 (modifiers_read_from_held_keys [save]
                    [KeyDown (keyEvent "Control")] (keyEvent "s"))
                 0 save "Control" H1 H2 H3).
Defined.

(** The event says Control is down; the held keys do not: [save] is not
    called. *)
Example raw_flag_is_not_enough :
  let e := {| key := "s"; ctrlKey := true; shiftKey := false;
              altKey := false; metaKey := false |} in
  snd (handleKeyDown [save] ∅ e) = [PreventDefault e].
Proof. vm_compute. reflexivity. Qed.

(** ** A key outside the key set (C10) *)

Lemma has_add_other (pressedKeys : gset string) (k name : string) :
  sameKey name k = false →
  LowercaseSet.has (LowercaseSet.add k pressedKeys) name
  = LowercaseSet.has pressedKeys name.
Proof.
  intros Hs. apply sameKey_false in Hs. apply eq_true_iff_eq.
  rewrite LowercaseSetFacts.has_add. split; [|auto].
  intros [H|H]; [destruct (Hs H)|exact H].
Qed.

(** Adding a key that the modifiers map does not name leaves the modifier
    check as it was. *)
Lemma checkModifiers_add_unnamed (pressedKeys : gset string) (k : string)
    (m : option (list (string * bool))) :
  (∀ name required, (name, required) ∈ entriesOf m → sameKey name k = false) →
  checkModifiers (LowercaseSet.add k pressedKeys) m = checkModifiers pressedKeys m.
Proof.
  intros Hun. apply eq_true_iff_eq. rewrite !checkModifiers_spec.
  split; intros H name required Hin.
  - rewrite <- (has_add_other pressedKeys k name (Hun _ _ Hin)). apply H, Hin.
  - rewrite (has_add_other pressedKeys k name (Hun _ _ Hin)). apply H, Hin.
Qed.

(** C10.  A command without [triggerOnAnyKey] has all the keys of its key
    set held.  Then a key-down of a key that is not yet held is a key-down
    of a key outside its key set, and it calls the command's callback with
    this event whenever the modifier check passes on the held keys: as the
    handler evaluates it, with the new key added, or, the same when the
    modifiers map does not name the new key, before the key-down. *)
Theorem unrelated_key_down_invokes (commands : list useKeysCommand)
    (pressedKeys : gset string) (e : KeyboardEvent) (i : nat) (c : useKeysCommand) :
  commands !! i = Some c →
  default false (triggerOnAnyKey c) = false →
  (∀ k, k ∈ LowercaseSet.new (keys c) → k ∈ pressedKeys) →
  LowercaseSet.has pressedKeys (key e) = false →
  let trace := snd (handleKeyDown commands pressedKeys e) in
  LowercaseSet.has (LowercaseSet.new (keys c)) (key e) = false
  ∧ (checkModifiers (LowercaseSet.add (key e) pressedKeys) (modifiers c) = true →
       In (Invoke i (callback c) e) trace)
  ∧ (checkModifiers pressedKeys (modifiers c) = true →
     (∀ name required, (name, required) ∈ entriesOf (modifiers c) →
        sameKey name (key e) = false) →
       In (Invoke i (callback c) e) trace).
Proof.
  intros Hc Hflag Hheld Hfresh trace.
  assert (Hmain : checkModifiers (LowercaseSet.add (key e) pressedKeys) (modifiers c)
                  = true → In (Invoke i (callback c) e) trace).
  { intros Hm. subst trace. rewrite (handleKeyDown_fresh _ _ _ Hfresh). simpl.
    apply In_Invoke_evaluate. split; [reflexivity|]. exists c.
    repeat split; try assumption.
    apply (checkKeys_all _ _ _ Hflag). intros k Hk.
    apply (has_key_of_keySet _ (keys c) k Hk).
    apply LowercaseSetFacts.elem_of_add. right. apply Hheld, Hk. }
  split; [|split].
  - apply LowercaseSetFacts.has_false. intros Hin.
    apply LowercaseSetFacts.has_false in Hfresh. apply Hfresh, Hheld, Hin.
  - exact Hmain.
  - intros Hm Hun. apply Hmain. rewrite checkModifiers_add_unnamed; assumption.
Qed.

Lemma unrelated_key_down_invokes_witness :
  let commands := [command ["a"; "B"] 5] in
  let pressedKeys : gset string := {[ "a"; "b" ]} in
  let e := keyEvent "x" in
  let c := command ["a"; "B"] 5 in
  let trace := snd (handleKeyDown commands pressedKeys e) in
  (commands !! 0 = Some c
   ∧ default false (triggerOnAnyKey c) = false
   ∧ (∀ k, k ∈ LowercaseSet.new (keys c) → k ∈ pressedKeys)
   ∧ LowercaseSet.has pressedKeys (key e) = false)
  ∧ (LowercaseSet.has (LowercaseSet.new (keys c)) (key e) = false
     ∧ (checkModifiers (LowercaseSet.add (key e) pressedKeys) (modifiers c) = true →
          In (Invoke 0 (callback c) e) trace)
     ∧ (checkModifiers pressedKeys (modifiers c) = true →
        (∀ name required, (name, required) ∈ entriesOf (modifiers c) →
           sameKey name (key e) = false) →
          In (Invoke 0 (callback c) e) trace)).
Proof.
  cbv zeta.
  assert (H3 : ∀ k, k ∈ LowercaseSet.new (keys (command ["a"; "B"] 5))
                    → k ∈ ({[ "a"; "b" ]} : gset string)).
  { intros k Hk. apply LowercaseSetFacts.elem_of_new in Hk as (v & Hv & ->).
    simpl in Hv. apply elem_of_cons in Hv as [->|Hv].
    - vm_compute. reflexivity.
    - apply elem_of_cons in Hv as [->|Hv]; [vm_compute; reflexivity|].
      by apply elem_of_nil in Hv. }
  assert (H4 : LowercaseSet.has ({[ "a"; "b" ]} : gset string) (key (keyEvent "x"))
               = false) by (vm_compute; reflexivity).
  split.
  - auto.
  - exact (unrelated_key_down_invokes [command ["a"; "B"] 5] {[ "a"; "b" ]}
             (keyEvent "x") 0 (command ["a"; "B"] 5) eq_refl eq_refl H3 H4).
Defined.

Example unrelated_key_calls_again :
  snd (run [command ["a"; "B"] 5] ∅
         [KeyDown (keyEvent "a"); KeyDown (keyEvent "b"); KeyDown (keyEvent "x")])
  = [Invoke 0 5 (keyEvent "b"); Invoke 0 5 (keyEvent "x")].
Proof. vm_compute. reflexivity. Qed.

(** ** Letter case (C6) *)

Lemma elem_of_new_map (ks : list string) (k : string) :
  k ∈ LowercaseSet.new ks ↔ In k (map toLowerCase ks).
Proof.
  rewrite LowercaseSetFacts.elem_of_new, in_map_iff. split.
  - intros (v & Hv & ->). exists v. split; [reflexivity|apply list_elem_of_In, Hv].
  - intros (v & <- & Hv). exists v. split; [apply list_elem_of_In, Hv|reflexivity].
Qed.

Lemma new_caseVariant (ks1 ks2 : list string) :
  Forall2 (fun k1 k2 => sameKey k1 k2 = true) ks1 ks2 →
  LowercaseSet.new ks1 = LowercaseSet.new ks2.
Proof.
  intros H.
  assert (Hmap : map toLowerCase ks1 = map toLowerCase ks2).
  { induction H as [|k1 k2 ks1 ks2 Hk _ IH]; simpl; [reflexivity|].
    apply sameKey_true in Hk. rewrite Hk, IH. reflexivity. }
  apply set_eq. intros k. rewrite !elem_of_new_map, Hmap. reflexivity.
Qed.

Lemma checkModifiers_caseVariant (pressedKeys : gset string)
    (m1 m2 : option (list (string * bool))) :
  caseVariantModifiers m1 m2 →
  checkModifiers pressedKeys m1 = checkModifiers pressedKeys m2.
Proof.
  destruct m1 as [entries1|], m2 as [entries2|]; simpl; try contradiction;
    [|reflexivity].
  intros H. rewrite (Forall2_length _ _ _ H).
  destruct (Nat.eqb (length entries2) 0); [reflexivity|].
  induction H as [|[n1 r1] [n2 r2] entries1 entries2 [Hn Hr] _ IH]; simpl;
    [reflexivity|].
  simpl in Hn, Hr. subst r2. rewrite IH, (has_sameKey _ _ _ Hn). reflexivity.
Qed.

Lemma keyDownAt_caseVariant (cs1 cs2 : list useKeysCommand) (pressedKeys : gset string)
    (e1 e2 : KeyboardEvent) (j : nat) :
  Forall2 caseVariantCommand cs1 cs2 →
  sameKey (key e1) (key e2) = true →
  map shape (keyDownAt cs1 pressedKeys e1 j)
  = map shape (keyDownAt cs2 pressedKeys e2 j).
Proof.
  intros Hcs Hk. unfold keyDownAt.
  rewrite !lookup_keySets, !lookup_commandCallbacks.
  destruct (cs1 !! j) as [c1|] eqn:H1.
  - destruct (Forall2_lookup_l _ _ _ _ _ Hcs H1) as (c2 & H2 & [Hks Hcb Ht Hm Hp]).
    rewrite H2. simpl.
    rewrite (new_caseVariant _ _ Hks), Hcb, Ht, Hp,
      (checkModifiers_caseVariant _ _ _ Hm), (has_sameKey _ _ _ Hk).
    rewrite !map_app. f_equal.
    + destruct (truthy (preventDefault c2) && _); reflexivity.
    + destruct (negb (checkModifiers pressedKeys (modifiers c2))); [reflexivity|].
      destruct (negb (checkKeys pressedKeys _ (triggerOnAnyKey c2))); reflexivity.
  - destruct (cs2 !! j) as [c2|] eqn:H2; [|reflexivity].
    destruct (Forall2_lookup_r _ _ _ _ _ Hcs H2) as (c1 & H1' & _). congruence.
Qed.

Lemma handleKeyDown_caseVariant (cs1 cs2 : list useKeysCommand)
    (pressedKeys : gset string) (e1 e2 : KeyboardEvent) :
  Forall2 caseVariantCommand cs1 cs2 →
  sameKey (key e1) (key e2) = true →
  fst (handleKeyDown cs1 pressedKeys e1) = fst (handleKeyDown cs2 pressedKeys e2)
  ∧ map shape (snd (handleKeyDown cs1 pressedKeys e1))
    = map shape (snd (handleKeyDown cs2 pressedKeys e2)).
Proof.
  intros Hcs Hk. unfold handleKeyDown, LowercaseSet.add.
  rewrite (has_sameKey _ _ _ Hk), (proj1 (sameKey_true _ _) Hk).
  destruct (LowercaseSet.has pressedKeys (key e2)); simpl; [auto|].
  split; [reflexivity|]. unfold evaluate.
  rewrite (Forall2_length _ _ _ Hcs). apply map_shape_flat_map.
  intros j. apply keyDownAt_caseVariant; assumption.
Qed.

Lemma dispatch_caseVariant (cs1 cs2 : list useKeysCommand) (pressedKeys : gset string)
    (n1 n2 : Notification) :
  Forall2 caseVariantCommand cs1 cs2 →
  sameKeyNotification n1 n2 →
  fst (dispatch cs1 pressedKeys n1) = fst (dispatch cs2 pressedKeys n2)
  ∧ map shape (snd (dispatch cs1 pressedKeys n1))
    = map shape (snd (dispatch cs2 pressedKeys n2)).
Proof.
  intros Hcs Hn. destruct n1 as [e1|e1|], n2 as [e2|e2|]; simpl in *;
    try contradiction; auto.
  - apply handleKeyDown_caseVariant; assumption.
  - unfold LowercaseSet.delete. rewrite (proj1 (sameKey_true _ _) Hn). auto.
Qed.

Lemma run_caseVariant (cs1 cs2 : list useKeysCommand) (ns1 ns2 : list Notification)
    (pressedKeys : gset string) :
  Forall2 caseVariantCommand cs1 cs2 →
  Forall2 sameKeyNotification ns1 ns2 →
  fst (run cs1 pressedKeys ns1) = fst (run cs2 pressedKeys ns2)
  ∧ map shape (snd (run cs1 pressedKeys ns1))
    = map shape (snd (run cs2 pressedKeys ns2)).
Proof.
  intros Hcs Hns. revert pressedKeys.
  induction Hns as [|n1 n2 ns1 ns2 Hn _ IH]; intros pressedKeys.
  - auto.
  - rewrite !run_cons. simpl.
    destruct (dispatch_caseVariant cs1 cs2 pressedKeys n1 n2 Hcs Hn) as [Hs Ht].
    rewrite Hs. destruct (IH (fst (dispatch cs2 pressedKeys n2))) as [Hs' Ht'].
    split; [exact Hs'|]. rewrite !map_app, Ht, Ht'. reflexivity.
Qed.

Lemma caseVariant_sameKeyNotification (ns1 ns2 : list Notification) :
  Forall2 caseVariantNotification ns1 ns2 → Forall2 sameKeyNotification ns1 ns2.
Proof.
  intros H. induction H as [|n1 n2 ns1 ns2 Hn _ IH]; constructor; [|exact IH].
  destruct n1, n2; simpl in *; tauto.
Qed.

Lemma useKeys_caseVariant (cs1 cs2 : list useKeysCommand) :
  Forall2 caseVariantCommand cs1 cs2 → useKeys cs1 = useKeys cs2.
Proof.
  intros H. unfold useKeys.
  assert (Heq : existsb (fun cmd => Nat.eqb (length (keys cmd)) 0) cs1
                = existsb (fun cmd => Nat.eqb (length (keys cmd)) 0) cs2).
  { induction H as [|c1 c2 cs1 cs2 [Hks _ _ _ _] _ IH]; simpl; [reflexivity|].
    rewrite IH, (Forall2_length _ _ _ Hks). reflexivity. }
  rewrite Heq. reflexivity.
Qed.

Lemma keySets_caseVariant (cs1 cs2 : list useKeysCommand) :
  Forall2 caseVariantCommand cs1 cs2 → keySets cs1 = keySets cs2.
Proof.
  intros H. unfold keySets.
  induction H as [|c1 c2 cs1 cs2 [Hks _ _ _ _] _ IH]; simpl; [reflexivity|].
  rewrite IH, (new_caseVariant _ _ Hks). reflexivity.
Qed.

(** Every key the hook stores is in lower case. *)
Lemma held_keys_are_lower (commands : list useKeysCommand) (ns : list Notification)
    (pressedKeys : gset string) :
  (∀ k, k ∈ pressedKeys → toLowerCase k = k) →
  ∀ k, k ∈ fst (run commands pressedKeys ns) → toLowerCase k = k.
Proof.
  revert pressedKeys. induction ns as [|n ns IH]; intros pressedKeys Hlow.
  - exact Hlow.
  - rewrite run_cons. simpl. apply IH. intros k.
    destruct n as [e|e|]; simpl.
    + rewrite handleKeyDown_held_keys, LowercaseSetFacts.elem_of_add.
      intros [->|Hk]; [apply toLowerCase_idem|apply Hlow, Hk].
    + rewrite LowercaseSetFacts.elem_of_delete. intros [Hk _]. apply Hlow, Hk.
    + unfold LowercaseSet.clear. intros Hk. by apply not_elem_of_empty in Hk.
Qed.

(** C6.  Keys are compared without regard to letter case.  Every key the
    hook stores, in a key set or among the held keys, is in lower case, and
    every lookup lowers its argument.  So two lists of commands that differ
    in the letter case of keys and of modifier names only, fed two sequences
    of notifications that differ in the letter case of keys only, register
    alike, hold the same keys after every sequence, and make the same calls
    in the same order: the same callbacks and [preventDefault] at the same
    places. *)
Theorem letter_case_is_immaterial (cs1 cs2 : list useKeysCommand)
    (ns1 ns2 : list Notification) (pressedKeys : gset string) :
  Forall2 caseVariantCommand cs1 cs2 →
  Forall2 caseVariantNotification ns1 ns2 →
  useKeys cs1 = useKeys cs2
  ∧ keySets cs1 = keySets cs2
  ∧ (∀ ks k, ks ∈ keySets cs1 → k ∈ ks → toLowerCase k = k)
  ∧ (∀ k, k ∈ fst (run cs1 ∅ ns1) → toLowerCase k = k)
  ∧ fst (run cs1 pressedKeys ns1) = fst (run cs2 pressedKeys ns2)
  ∧ map shape (snd (run cs1 pressedKeys ns1))
    = map shape (snd (run cs2 pressedKeys ns2))
  ∧ (∀ i, invokes i (snd (run cs1 pressedKeys ns1))
          = invokes i (snd (run cs2 pressedKeys ns2))).
Proof.
  intros Hcs Hns.
  destruct (run_caseVariant cs1 cs2 ns1 ns2 pressedKeys Hcs
              (caseVariant_sameKeyNotification _ _ Hns)) as [Hs Ht].
  split; [apply useKeys_caseVariant, Hcs|].
  split; [apply keySets_caseVariant, Hcs|].
  split.
  { intros ks k Hks Hk. unfold keySets in Hks.
    apply list_elem_of_In, in_map_iff in Hks as (c & <- & _).
    apply (LowercaseSetFacts.new_is_lower _ _ Hk). }
  split.
  { apply held_keys_are_lower. intros k Hk. by apply not_elem_of_empty in Hk. }
  split; [exact Hs|]. split; [exact Ht|].
  intros i. apply invokes_shape, Ht.
Qed.

Lemma letter_case_is_immaterial_witness :
  let saveUpper :=
    {| keys := ["S"]; callback := 1; triggerOnAnyKey := None;
       modifiers := Some [("CONTROL", true)]; preventDefault := Some true;
       otherProps := [] |} in
  let ns1 := [KeyDown (keyEvent "Control"); KeyDown (keyEvent "s");
              KeyUp (keyEvent "s")] in
  let ns2 := [KeyDown (keyEvent "control"); KeyDown (keyEvent "S");
              KeyUp (keyEvent "S")] in
  (Forall2 caseVariantCommand [save] [saveUpper]
   ∧ Forall2 caseVariantNotification ns1 ns2)
  ∧ fst (run [save] ∅ ns1) = fst (run [saveUpper] ∅ ns2)
  ∧ map shape (snd (run [save] ∅ ns1)) = map shape (snd (run [saveUpper] ∅ ns2))
  ∧ map shape (snd (run [save] ∅ ns1)) = [None; Some (0, 1)].
Proof.
  cbv zeta.
  assert (Hcs : Forall2 caseVariantCommand [save]
                  [{| keys := ["S"]; callback := 1; triggerOnAnyKey := None;
                      modifiers := Some [("CONTROL", true)];
                      preventDefault := Some true; otherProps := [] |}]).
  { constructor; [|constructor]. split; simpl; try reflexivity.
    - constructor; [reflexivity|constructor].
    - constructor; [split; reflexivity|constructor]. }
  assert (Hns : Forall2 caseVariantNotification
                  [KeyDown (keyEvent "Control"); KeyDown (keyEvent "s");
                   KeyUp (keyEvent "s")]
                  [KeyDown (keyEvent "control"); KeyDown (keyEvent "S");
                   KeyUp (keyEvent "S")]).
  { repeat constructor. }
  split; [auto|].
  destruct (letter_case_is_immaterial _ _ _ _ ∅ Hcs Hns)
    as (_ & _ & _ & _ & Hs & Ht & _).
  split; [exact Hs|]. split; [exact Ht|]. vm_compute. reflexivity.
Defined.

Lemma empty_keys_rejected_witness :
  useKeys [save; command [] 3] = inl (ErrorMsg "Empty keys array is not allowed")
  ∧ useKeys [save; arrows] = inr ∅
  ∧ useKeys [] = inr ∅.
Proof.
  split; [|split].
  - apply (proj1 (proj1 (empty_keys_rejected [save; command [] 3]))).
    exists (command [] 3). split; [right; left|reflexivity].
  - apply (proj1 (proj2 (empty_keys_rejected [save; arrows]))).
    intros c Hc. apply elem_of_cons in Hc as [->|Hc]; [discriminate|].
    apply elem_of_cons in Hc as [->|Hc]; [discriminate|].
    by apply elem_of_nil in Hc.
  - apply (proj1 (proj2 (empty_keys_rejected []))).
    intros c Hc. by apply elem_of_nil in Hc.
Defined.

Lemma key_up_only_removes_key_witness :
  let pressedKeys : gset string := {[ "control"; "s" ]} in
  let held := fst (dispatch [save] pressedKeys (KeyUp (keyEvent "S"))) in
  ("control" ∈ held) ∧ ("s" ∉ held)
  ∧ snd (dispatch [save] pressedKeys (KeyUp (keyEvent "S"))) = [].
Proof.
  cbv zeta.
  destruct (key_up_only_removes_key [save] {[ "control"; "s" ]} (keyEvent "S"))
    as (_ & Hout & Hrest & Ht & _).
  split; [|split].
  - apply Hrest; [discriminate|]. vm_compute. reflexivity.
  - exact Hout.
  - exact Ht.
Defined.

(** * Further properties of the hook *)

(** ** [LowercaseSet]: add, has, delete *)

(** X1.  Adding a key makes every letter-case variant of it a member, and
    adding a variant again changes nothing: the set keeps one entry per key
    whatever the case it is written in. *)
Theorem add_absorbs_case_variants (s : gset string) (v v' : string) :
  sameKey v' v = true →
  LowercaseSet.has (LowercaseSet.add v s) v' = true
  ∧ LowercaseSet.add v' (LowercaseSet.add v s) = LowercaseSet.add v s
  ∧ (size (LowercaseSet.add v' (LowercaseSet.add v s)) ≤ S (size s))%nat.
Proof.
  intros Hs. apply sameKey_true in Hs.
  assert (Hadd : LowercaseSet.add v' (LowercaseSet.add v s) = LowercaseSet.add v s).
  { unfold LowercaseSet.add. rewrite Hs. apply set_eq. intros k.
    rewrite !elem_of_union, elem_of_singleton. tauto. }
  split; [|split].
  - apply LowercaseSetFacts.has_add. left. exact Hs.
  - exact Hadd.
  - rewrite Hadd. unfold LowercaseSet.add.
    rewrite size_union_alt, size_singleton.
    assert (Hsub : s ∖ {[toLowerCase v]} ⊆ s).
    { intros k Hk. apply elem_of_difference in Hk as [Hk _]. exact Hk. }
    apply subseteq_size in Hsub. apply le_n_S. exact Hsub.
Qed.

Lemma add_absorbs_case_variants_witness :
  let s : gset string := {[ "shift" ]} in
  sameKey "CONTROL" "Control" = true
  ∧ (LowercaseSet.has (LowercaseSet.add "Control" s) "CONTROL" = true
     ∧ LowercaseSet.add "CONTROL" (LowercaseSet.add "Control" s)
       = LowercaseSet.add "Control" s
     ∧ (size (LowercaseSet.add "CONTROL" (LowercaseSet.add "Control" s))
        ≤ S (size s))%nat).
Proof.
  cbv zeta. split; [reflexivity|].
  exact (add_absorbs_case_variants {[ "shift" ]} "Control" "CONTROL" eq_refl).
Defined.

(** X2.  Deleting a key, written in any letter case, undoes an add of it:
    the key is gone, and when the key was not in the set before the add the
    set is back to what it was. *)
Theorem add_then_delete (s : gset string) (v v' : string) :
  sameKey v' v = true →
  LowercaseSet.delete v' (LowercaseSet.add v s) = LowercaseSet.delete v s
  ∧ LowercaseSet.has (LowercaseSet.delete v' (LowercaseSet.add v s)) v = false
  ∧ (LowercaseSet.has s v = false →
       LowercaseSet.delete v' (LowercaseSet.add v s) = s).
Proof.
  intros Hs. apply sameKey_true in Hs.
  unfold LowercaseSet.delete, LowercaseSet.add. rewrite Hs.
  split; [|split].
  - apply set_eq. intros k.
    rewrite !elem_of_difference, elem_of_union, elem_of_singleton. tauto.
  - apply LowercaseSetFacts.has_false.
    rewrite elem_of_difference, elem_of_singleton. tauto.
  - intros Hout. apply LowercaseSetFacts.has_false in Hout.
    apply set_eq. intros k.
    rewrite !elem_of_difference, elem_of_union, elem_of_singleton.
    split; [tauto|]. intros Hk. split; [tauto|]. intros ->. exact (Hout Hk).
Qed.

Lemma add_then_delete_witness :
  let s : gset string := {[ "shift" ]} in
  sameKey "S" "s" = true
  ∧ (LowercaseSet.delete "S" (LowercaseSet.add "s" s) = LowercaseSet.delete "s" s
     ∧ LowercaseSet.has (LowercaseSet.delete "S" (LowercaseSet.add "s" s)) "s" = false
     ∧ (LowercaseSet.has s "s" = false →
          LowercaseSet.delete "S" (LowercaseSet.add "s" s) = s)).
Proof.
  cbv zeta. split; [reflexivity|].
  exact (add_then_delete {[ "shift" ]} "s" "S" eq_refl).
Defined.

(** ** The key sets and the callbacks of the commands *)

Lemma size_fold_add (values : list string) (acc : gset string) :
  (size (fold_left (fun s value => LowercaseSet.add value s) values acc)
   ≤ size acc + length values)%nat.
Proof.
  revert acc. induction values as [|v values IH]; intros acc.
  - apply Nat.le_add_r.
  - change (fold_left (fun s value => LowercaseSet.add value s) (v :: values) acc)
      with (fold_left (fun s value => LowercaseSet.add value s) values
              (LowercaseSet.add v acc)).
    etransitivity; [apply IH|].
    assert (Hadd : (size (LowercaseSet.add v acc) ≤ S (size acc))%nat).
    { unfold LowercaseSet.add. rewrite size_union_alt, size_singleton.
      assert (Hsub : acc ∖ {[toLowerCase v]} ⊆ acc).
      { intros k Hk. apply elem_of_difference in Hk as [Hk _]. exact Hk. }
      apply subseteq_size in Hsub. apply le_n_S. exact Hsub. }
    etransitivity; [apply Nat.add_le_mono_r, Hadd|].
    change (length (v :: values)) with (S (length values)).
    rewrite Nat.add_succ_r. apply Nat.le_refl.
Qed.

(** X3.  [keySets] and [commandCallbacks] run parallel to [commands]: same
    length, and at the index of a command its callback and its key set.  The
    key set has a key iff the command lists it in some letter case, and it
    has no more entries than the command lists keys. *)
Theorem keySets_follow_commands (commands : list useKeysCommand) :
  length (keySets commands) = length commands
  ∧ length (commandCallbacks commands) = length commands
  ∧ ∀ i c, commands !! i = Some c →
      commandCallbacks commands !! i = Some (callback c)
      ∧ ∃ keySet,
          keySets commands !! i = Some keySet
          ∧ (∀ v, LowercaseSet.has keySet v = true
                  ↔ ∃ w, w ∈ keys c ∧ sameKey v w = true)
          ∧ (size keySet ≤ length (keys c))%nat.
Proof.
  split; [apply length_map|]. split; [apply length_map|].
  intros i c Hc. rewrite lookup_commandCallbacks, lookup_keySets, Hc. simpl.
  split; [reflexivity|]. exists (LowercaseSet.new (keys c)).
  split; [reflexivity|]. split.
  - intros v. rewrite LowercaseSetFacts.has_new.
    split; intros (w & Hw & H); exists w; (split; [exact Hw|]);
      apply sameKey_true, H.
  - unfold LowercaseSet.new. etransitivity; [apply size_fold_add|].
    unfold LowercaseSet.empty. rewrite size_empty. apply Nat.le_refl.
Qed.

Lemma keySets_follow_commands_witness :
  let c := command ["a"; "A"; "B"] 5 in
  [arrows; c] !! 1 = Some c
  ∧ (commandCallbacks [arrows; c] !! 1 = Some (callback c)
     ∧ ∃ keySet,
         keySets [arrows; c] !! 1 = Some keySet
         ∧ (∀ v, LowercaseSet.has keySet v = true
                 ↔ ∃ w, w ∈ keys c ∧ sameKey v w = true)
         ∧ (size keySet ≤ length (keys c))%nat).
Proof.
  cbv zeta. split; [reflexivity|].
  exact (proj2 (proj2 (keySets_follow_commands [arrows; command ["a"; "A"; "B"] 5]))
           1 (command ["a"; "A"; "B"] 5) eq_refl).
Defined.

(** ** [checkKeys] *)

(** X4.  A command that lists one key, once or in several letter cases, is
    matched exactly when that key is held: [triggerOnAnyKey] makes no
    difference. *)
Theorem one_key_ignores_triggerOnAnyKey (pressedKeys : gset string)
    (ks : list string) (k : string) (flag : option bool) :
  ks ≠ [] →
  (∀ k', k' ∈ ks → sameKey k' k = true) →
  checkKeys pressedKeys (LowercaseSet.new ks) flag = LowercaseSet.has pressedKeys k.
Proof.
  intros Hne Hall.
  assert (Hset : ∀ x, x ∈ LowercaseSet.new ks ↔ x = toLowerCase k).
  { intros x. rewrite LowercaseSetFacts.elem_of_new. split.
    - intros (v & Hv & ->). apply sameKey_true, Hall, Hv.
    - intros ->. destruct ks as [|v ks]; [destruct (Hne eq_refl)|].
      exists v. split; [left|]. symmetry. apply sameKey_true, Hall. left. }
  assert (Hlow : LowercaseSet.has pressedKeys (toLowerCase k)
                 = LowercaseSet.has pressedKeys k).
  { unfold LowercaseSet.has. rewrite toLowerCase_idem. reflexivity. }
  apply eq_true_iff_eq. destruct (default false flag) eqn:Hflag.
  - rewrite (checkKeys_any _ _ _ Hflag). split.
    + intros (x & Hx & H). apply Hset in Hx as ->. rewrite <- Hlow. exact H.
    + intros H. exists (toLowerCase k). split; [apply Hset; reflexivity|].
      rewrite Hlow. exact H.
  - rewrite (checkKeys_all _ _ _ Hflag). split.
    + intros H. rewrite <- Hlow. apply H, Hset. reflexivity.
    + intros H x Hx. apply Hset in Hx as ->. rewrite Hlow. exact H.
Qed.

Lemma one_key_ignores_triggerOnAnyKey_witness :
  let pressedKeys : gset string := {[ "s"; "control" ]} in
  (["s"; "S"] ≠ [] ∧ ∀ k', k' ∈ ["s"; "S"] → sameKey k' "s" = true)
  ∧ checkKeys pressedKeys (LowercaseSet.new ["s"; "S"]) (Some true)
    = LowercaseSet.has pressedKeys "s".
Proof.
  cbv zeta.
  assert (Hne : ["s"; "S"] ≠ []) by discriminate.
  assert (Hall : ∀ k', k' ∈ ["s"; "S"] → sameKey k' "s" = true).
  { intros k' Hk. apply elem_of_cons in Hk as [->|Hk]; [reflexivity|].
    apply elem_of_cons in Hk as [->|Hk]; [reflexivity|].
    by apply elem_of_nil in Hk. }
  split; [auto|].
  exact (one_key_ignores_triggerOnAnyKey {[ "s"; "control" ]} ["s"; "S"] "s"
           (Some true) Hne Hall).
Defined.

(** X5.  Holding more keys never makes the key check fail: if it passes on
    a set of held keys, it passes on every larger one. *)
Theorem checkKeys_monotone (pressedKeys pressedKeys' keySet : gset string)
    (flag : option bool) :
  pressedKeys ⊆ pressedKeys' →
  checkKeys pressedKeys keySet flag = true →
  checkKeys pressedKeys' keySet flag = true.
Proof.
  intros Hsub.
  assert (Hhas : ∀ k, LowercaseSet.has pressedKeys k = true
                      → LowercaseSet.has pressedKeys' k = true).
  { intros k. rewrite !LowercaseSetFacts.has_true. apply Hsub. }
  destruct (default false flag) eqn:Hflag.
  - rewrite !(checkKeys_any _ _ _ Hflag). intros (k & Hk & H). eauto.
  - rewrite !(checkKeys_all _ _ _ Hflag). intros H k Hk. apply Hhas, H, Hk.
Qed.

Lemma checkKeys_monotone_witness :
  let small : gset string := {[ "a"; "b" ]} in
  let large : gset string := {[ "a"; "b"; "x" ]} in
  (small ⊆ large ∧ checkKeys small (LowercaseSet.new ["a"; "B"]) None = true)
  ∧ checkKeys large (LowercaseSet.new ["a"; "B"]) None = true.
Proof.
  cbv zeta.
  assert (Hsub : ({[ "a"; "b" ]} : gset string) ⊆ {[ "a"; "b"; "x" ]}).
  { intros k Hk. apply elem_of_union. left. exact Hk. }
  assert (Hc : checkKeys ({[ "a"; "b" ]} : gset string)
                 (LowercaseSet.new ["a"; "B"]) None = true)
    by (vm_compute; reflexivity).
  split; [auto|].
  exact (checkKeys_monotone _ _ _ None Hsub Hc).
Defined.

(** X6.  For a key set that is not empty, passing with all keys required
    implies passing with any key accepted.  On the empty key set the two
    part: [every] is true and [some] is false, whatever is held. *)
Theorem all_keys_implies_any_key (pressedKeys keySet : gset string)
    (flagAll flagAny : option bool) :
  default false flagAll = false →
  default false flagAny = true →
  (keySet ≠ ∅ → checkKeys pressedKeys keySet flagAll = true
              → checkKeys pressedKeys keySet flagAny = true)
  ∧ checkKeys pressedKeys ∅ flagAll = true
  ∧ checkKeys pressedKeys ∅ flagAny = false.
Proof.
  intros Hall Hany. split; [|split].
  - intros Hne. rewrite (checkKeys_all _ _ _ Hall), (checkKeys_any _ _ _ Hany).
    intros H. apply set_choose_L in Hne as [k Hk]. exists k. auto.
  - apply (checkKeys_all _ _ _ Hall). intros k Hk. by apply not_elem_of_empty in Hk.
  - apply not_true_is_false. rewrite (checkKeys_any _ _ _ Hany).
    intros (k & Hk & _). by apply not_elem_of_empty in Hk.
Qed.

Lemma all_keys_implies_any_key_witness :
  let pressedKeys : gset string := {[ "a"; "b" ]} in
  (default false None = false ∧ default false (Some true) = true)
  ∧ ((LowercaseSet.new ["a"; "B"] ≠ ∅
      → checkKeys pressedKeys (LowercaseSet.new ["a"; "B"]) None = true
      → checkKeys pressedKeys (LowercaseSet.new ["a"; "B"]) (Some true) = true)
     ∧ checkKeys pressedKeys ∅ None = true
     ∧ checkKeys pressedKeys ∅ (Some true) = false).
Proof.
  cbv zeta. split; [split; reflexivity|].
  exact (all_keys_implies_any_key {[ "a"; "b" ]} (LowercaseSet.new ["a"; "B"])
           None (Some true) eq_refl eq_refl).
Defined.

(** ** [checkModifiers] *)

(** Whether command [i] is called by one key-down. *)
Lemma invokes_handleKeyDown (commands : list useKeysCommand) (pressedKeys : gset string)
    (e : KeyboardEvent) (i : nat) (c : useKeysCommand) :
  commands !! i = Some c →
  invokes i (snd (handleKeyDown commands pressedKeys e))
  = negb (LowercaseSet.has pressedKeys (key e))
    && (checkModifiers (LowercaseSet.add (key e) pressedKeys) (modifiers c)
        && checkKeys (LowercaseSet.add (key e) pressedKeys)
             (LowercaseSet.new (keys c)) (triggerOnAnyKey c)).
Proof.
  intros Hc. unfold handleKeyDown.
  destruct (LowercaseSet.has pressedKeys (key e)); simpl; [reflexivity|].
  apply (invokes_evaluate _ _ _ _ _ Hc).
Qed.

(** X7.  Without [triggerOnAnyKey], a command whose modifiers forbid one of
    the keys it lists can never be satisfied: the key check wants the key
    held and the modifier check wants it not held, so the command is never
    called. *)
Theorem forbidden_own_key_never_fires (commands : list useKeysCommand)
    (i : nat) (c : useKeysCommand) (k m : string) :
  commands !! i = Some c →
  default false (triggerOnAnyKey c) = false →
  k ∈ keys c →
  (m, false) ∈ entriesOf (modifiers c) →
  sameKey k m = true →
  ∀ pressedKeys e,
    checkModifiers pressedKeys (modifiers c)
    && checkKeys pressedKeys (LowercaseSet.new (keys c)) (triggerOnAnyKey c) = false
    ∧ invokes i (snd (handleKeyDown commands pressedKeys e)) = false.
Proof.
  intros Hc Hflag Hk Hm Hs.
  assert (Hfail : ∀ held,
             checkModifiers held (modifiers c)
             && checkKeys held (LowercaseSet.new (keys c)) (triggerOnAnyKey c) = false).
  { intros held. apply not_true_is_false. intros Hpass.
    apply andb_true_iff in Hpass as [Hmod Hkeys].
    pose proof (proj1 (checkModifiers_spec held (modifiers c)) Hmod _ _ Hm) as Hnot.
    pose proof (proj1 (checkKeys_all _ _ _ Hflag) Hkeys (toLowerCase k)) as Hheld.
    assert (Hin : toLowerCase k ∈ LowercaseSet.new (keys c)).
    { apply LowercaseSetFacts.elem_of_new. eauto. }
    specialize (Hheld Hin).
    rewrite <- (has_sameKey _ _ _ Hs) in Hnot.
    unfold LowercaseSet.has in Hheld, Hnot. rewrite toLowerCase_idem in Hheld.
    congruence. }
  intros pressedKeys e. split; [apply Hfail|].
  rewrite (invokes_handleKeyDown _ _ _ _ _ Hc), Hfail. apply andb_false_r.
Qed.

Lemma forbidden_own_key_never_fires_witness :
  let c := {| keys := ["Shift"; "a"]; callback := 4; triggerOnAnyKey := None;
              modifiers := Some [("Shift", false)];
              preventDefault := None; otherProps := [] |} in
  let pressedKeys : gset string := {[ "shift" ]} in
  checkModifiers pressedKeys (modifiers c)
  && checkKeys pressedKeys (LowercaseSet.new (keys c)) (triggerOnAnyKey c) = false
  ∧ invokes 0 (snd (handleKeyDown [c] pressedKeys (keyEvent "a"))) = false.
Proof.
  cbv zeta.
  apply (forbidden_own_key_never_fires
           [{| keys := ["Shift"; "a"]; callback := 4; triggerOnAnyKey := None;
               modifiers := Some [("Shift", false)];
               preventDefault := None; otherProps := [] |}]
           0 _ "Shift" "Shift" eq_refl eq_refl).
  - left.
  - left.
  - reflexivity.
Defined.

Lemma required_modifiers_as_keys (pressedKeys : gset string) (ks : list string)
    (entries : list (string * bool)) (flag : option bool) :
  default false flag = false →
  Forall (fun entry => entry.2 = true) entries →
  checkModifiers pressedKeys (Some entries)
  && checkKeys pressedKeys (LowercaseSet.new ks) flag
  = checkKeys pressedKeys (LowercaseSet.new (ks ++ map fst entries)) flag.
Proof.
  intros Hflag Htrue. apply eq_true_iff_eq.
  rewrite andb_true_iff, checkModifiers_spec, !(checkKeys_all _ _ _ Hflag).
  assert (Hlow : ∀ v, LowercaseSet.has pressedKeys (toLowerCase v)
                      = LowercaseSet.has pressedKeys v).
  { intros v. unfold LowercaseSet.has. rewrite toLowerCase_idem. reflexivity. }
  simpl. split.
  - intros [Hm Hk] k Hin. apply LowercaseSetFacts.elem_of_new in Hin as (v & Hv & ->).
    apply elem_of_app in Hv as [Hv|Hv].
    + apply Hk, LowercaseSetFacts.elem_of_new. eauto.
    + apply list_elem_of_In, in_map_iff in Hv as ([name required] & <- & Hin).
      simpl. rewrite Hlow. apply list_elem_of_In in Hin.
      rewrite Forall_forall in Htrue. pose proof (Htrue _ Hin) as Hr. simpl in Hr.
      subst required. symmetry. apply Hm, Hin.
  - intros H. split.
    + intros name required Hin.
      rewrite Forall_forall in Htrue. pose proof (Htrue _ Hin) as Hr. simpl in Hr.
      subst required. symmetry. rewrite <- Hlow.
      apply H, LowercaseSetFacts.elem_of_new. exists name. split; [|reflexivity].
      apply elem_of_app. right. apply list_elem_of_In, in_map_iff.
      exists (name, true). split; [reflexivity|]. apply list_elem_of_In, Hin.
    + intros k Hin. apply LowercaseSetFacts.elem_of_new in Hin as (v & Hv & ->).
      apply H, LowercaseSetFacts.elem_of_new. exists v. split; [|reflexivity].
      apply elem_of_app. left. exact Hv.
Qed.

(** X8.  Without [triggerOnAnyKey], modifiers that are all required to be
    held are further keys: a command with such modifiers is called by a
    key-down exactly when the command that lists the modifier names among
    its keys, and has no modifiers, is called. *)
Theorem required_modifiers_are_keys (commands commands' : list useKeysCommand)
    (i : nat) (c c' : useKeysCommand) (entries : list (string * bool)) :
  commands !! i = Some c →
  commands' !! i = Some c' →
  modifiers c = Some entries →
  Forall (fun entry => entry.2 = true) entries →
  default false (triggerOnAnyKey c) = false →
  keys c' = keys c ++ map fst entries →
  modifiers c' = None →
  triggerOnAnyKey c' = triggerOnAnyKey c →
  ∀ pressedKeys e,
    invokes i (snd (handleKeyDown commands pressedKeys e))
    = invokes i (snd (handleKeyDown commands' pressedKeys e)).
Proof.
  intros Hc Hc' Hm Htrue Hflag Hkeys Hm' Ht pressedKeys e.
  rewrite (invokes_handleKeyDown _ _ _ _ _ Hc), (invokes_handleKeyDown _ _ _ _ _ Hc').
  rewrite Hm, Hm', Hkeys, Ht.
  rewrite (required_modifiers_as_keys _ _ _ _ Hflag Htrue). reflexivity.
Qed.

Lemma required_modifiers_are_keys_witness :
  let c' := command ["s"; "Control"] 1 in
  let pressedKeys : gset string := {[ "control" ]} in
  invokes 0 (snd (handleKeyDown [save] pressedKeys (keyEvent "s")))
  = invokes 0 (snd (handleKeyDown [c'] pressedKeys (keyEvent "s")))
  ∧ invokes 0 (snd (handleKeyDown [c'] pressedKeys (keyEvent "s"))) = true.
Proof.
  cbv zeta. split; [|vm_compute; reflexivity].
  apply (required_modifiers_are_keys [save] [command ["s"; "Control"] 1] 0
           save (command ["s"; "Control"] 1) [("Control", true)]);
    try reflexivity.
  constructor; [reflexivity|constructor].
Defined.

(** ** What one key-down calls *)

(** X9.  A key-down calls nothing but [preventDefault] on its own event and
    callbacks of registered commands with its own event: every call in the
    trace carries the event handled, and every callback called is the one of
    the command at the index recorded. *)
Theorem key_down_calls_are_well_formed (commands : list useKeysCommand)
    (pressedKeys : gset string) (e : KeyboardEvent) (eff : Effect) :
  In eff (snd (handleKeyDown commands pressedKeys e)) →
  LowercaseSet.has pressedKeys (key e) = false
  ∧ (eff = PreventDefault e
     ∨ ∃ i c, commands !! i = Some c ∧ eff = Invoke i (callback c) e).
Proof.
  unfold handleKeyDown.
  destruct (LowercaseSet.has pressedKeys (key e)); simpl; [intros []|].
  intros Hin. split; [reflexivity|]. destruct eff as [e'|i cb e'].
  - apply In_PreventDefault_evaluate in Hin as [-> _]. left. reflexivity.
  - apply In_Invoke_evaluate in Hin as (-> & c & Hc & -> & _).
    right. exists i, c. auto.
Qed.

Lemma key_down_calls_are_well_formed_witness :
  let pressedKeys : gset string := {[ "control" ]} in
  let e := keyEvent "s" in
  In (Invoke 0 1 e) (snd (handleKeyDown [save] pressedKeys e))
  ∧ (LowercaseSet.has pressedKeys (key e) = false
     ∧ (Invoke 0 1 e = PreventDefault e
        ∨ ∃ i c, [save] !! i = Some c ∧ Invoke 0 1 e = Invoke i (callback c) e)).
Proof.
  cbv zeta.
  assert (Hin : In (Invoke 0 1 (keyEvent "s"))
                  (snd (handleKeyDown [save] {[ "control" ]} (keyEvent "s")))).
  { vm_compute. right. left. reflexivity. }
  split; [exact Hin|].
  exact (key_down_calls_are_well_formed [save] {[ "control" ]} (keyEvent "s") _ Hin).
Defined.

Lemma invokedIndices_app (t1 t2 : list Effect) :
  invokedIndices (t1 ++ t2) = invokedIndices t1 ++ invokedIndices t2.
Proof. unfold invokedIndices. apply flat_map_app. Qed.

Lemma invokedIndices_keyDownAt (commands : list useKeysCommand)
    (pressedKeys : gset string) (e : KeyboardEvent) (j : nat) :
  invokedIndices (keyDownAt commands pressedKeys e j)
  = if matches commands pressedKeys j then [j] else [].
Proof.
  unfold keyDownAt, matches. rewrite lookup_keySets, lookup_commandCallbacks.
  destruct (commands !! j) as [c|]; simpl; [|reflexivity].
  rewrite invokedIndices_app.
  destruct (truthy (preventDefault c) && _); simpl;
    destruct (checkModifiers pressedKeys (modifiers c)); simpl; try reflexivity;
    destruct (checkKeys pressedKeys _ (triggerOnAnyKey c)); reflexivity.
Qed.

Lemma invokedIndices_evaluate (commands : list useKeysCommand)
    (pressedKeys : gset string) (e : KeyboardEvent) :
  invokedIndices (evaluate commands pressedKeys e)
  = List.filter (matches commands pressedKeys) (seq 0 (length commands)).
Proof.
  unfold evaluate. generalize (seq 0 (length commands)) as l.
  induction l as [|j l IH]; simpl; [reflexivity|].
  rewrite invokedIndices_app, invokedIndices_keyDownAt, IH.
  destruct (matches commands pressedKeys j); reflexivity.
Qed.

Lemma filter_seq_sorted (P : nat → bool) (a n : nat) :
  StronglySorted lt (List.filter P (seq a n)).
Proof.
  revert a. induction n as [|n IH]; intros a; simpl; [constructor|].
  assert (Hrest : Forall (lt a) (List.filter P (seq (S a) n))).
  { apply Forall_forall. intros x Hx. apply list_elem_of_In, filter_In in Hx as [Hx _].
    apply in_seq in Hx. lia. }
  destruct (P a); [constructor; [apply IH|exact Hrest]|apply IH].
Qed.

(** X10.  One key-down calls the callbacks in registration order, each at
    most once: the indices called are the indices of the commands that pass
    both checks on the held keys with the new key added, in increasing
    order; and none when the key was already held. *)
Theorem callbacks_run_in_registration_order (commands : list useKeysCommand)
    (pressedKeys : gset string) (e : KeyboardEvent) :
  let called := invokedIndices (snd (handleKeyDown commands pressedKeys e)) in
  called
  = (if LowercaseSet.has pressedKeys (key e) then []
     else List.filter (matches commands (LowercaseSet.add (key e) pressedKeys))
            (seq 0 (length commands)))
  ∧ StronglySorted lt called
  ∧ NoDup called
  ∧ (length called ≤ length commands)%nat.
Proof.
  intros called.
  assert (Heq : called
                = if LowercaseSet.has pressedKeys (key e) then []
                  else List.filter
                         (matches commands (LowercaseSet.add (key e) pressedKeys))
                         (seq 0 (length commands))).
  { subst called. unfold handleKeyDown.
    destruct (LowercaseSet.has pressedKeys (key e)); simpl; [reflexivity|].
    apply invokedIndices_evaluate. }
  split; [exact Heq|]. rewrite Heq. clear Heq called.
  destruct (LowercaseSet.has pressedKeys (key e)).
  - split; [constructor|]. split; [constructor|]. simpl. lia.
  - split; [apply filter_seq_sorted|]. split.
    + apply NoDup_ListNoDup, List.NoDup_filter, List.seq_NoDup.
    + etransitivity; [apply filter_length_le|]. rewrite length_seq. reflexivity.
Qed.

Example two_commands_one_key_down :
  invokedIndices
    (snd (handleKeyDown [command ["b"] 9; save; command ["a"; "b"] 5]
            {[ "a" ]} (keyEvent "b")))
  = [0; 2].
Proof. vm_compute. reflexivity. Qed.

Lemma keyDownAt_suppress_and_call (commands : list useKeysCommand)
    (pressedKeys : gset string) (e : KeyboardEvent) (i : nat) (c : useKeysCommand) :
  commands !! i = Some c →
  preventDefault c = Some true →
  LowercaseSet.has (LowercaseSet.new (keys c)) (key e) = true →
  checkModifiers pressedKeys (modifiers c) = true →
  checkKeys pressedKeys (LowercaseSet.new (keys c)) (triggerOnAnyKey c) = true →
  keyDownAt commands pressedKeys e i = [PreventDefault e; Invoke i (callback c) e].
Proof.
  intros Hc Hp Hh Hm Hk. unfold keyDownAt.
  rewrite lookup_keySets, lookup_commandCallbacks, Hc. simpl.
  rewrite Hp, Hh, Hm, Hk. reflexivity.
Qed.

(** X11.  When a command with [preventDefault] set is called by a key-down
    of one of its keys, [preventDefault] has been called on the event just
    before its callback. *)
Theorem default_suppressed_before_callback (commands : list useKeysCommand)
    (pressedKeys : gset string) (e : KeyboardEvent) (i : nat) (c : useKeysCommand) :
  commands !! i = Some c →
  preventDefault c = Some true →
  LowercaseSet.has (LowercaseSet.new (keys c)) (key e) = true →
  invokes i (snd (handleKeyDown commands pressedKeys e)) = true →
  ∃ before after,
    snd (handleKeyDown commands pressedKeys e)
    = before ++ PreventDefault e :: Invoke i (callback c) e :: after.
Proof.
  intros Hc Hp Hh Hinv.
  rewrite (invokes_handleKeyDown _ _ _ _ _ Hc) in Hinv.
  apply andb_true_iff in Hinv as [Hfresh Hinv].
  apply andb_true_iff in Hinv as [Hm Hk]. apply negb_true_iff in Hfresh.
  rewrite (handleKeyDown_fresh _ _ _ Hfresh). simpl. unfold evaluate.
  pose proof (lookup_lt_Some _ _ _ Hc) as Hlt.
  replace (length commands) with (i + S (length commands - S i)) by lia.
  rewrite seq_app, flat_map_app. simpl.
  rewrite (keyDownAt_suppress_and_call _ _ _ _ _ Hc Hp Hh Hm Hk).
  eexists _, _. reflexivity.
Qed.

Lemma default_suppressed_before_callback_witness :
  let commands := [arrows; save] in
  let pressedKeys : gset string := {[ "control" ]} in
  let e := keyEvent "S" in
  (commands !! 1 = Some save
   ∧ preventDefault save = Some true
   ∧ LowercaseSet.has (LowercaseSet.new (keys save)) (key e) = true
   ∧ invokes 1 (snd (handleKeyDown commands pressedKeys e)) = true)
  ∧ ∃ before after,
      snd (handleKeyDown commands pressedKeys e)
      = before ++ PreventDefault e :: Invoke 1 (callback save) e :: after.
Proof.
  cbv zeta.
  assert (Hh : LowercaseSet.has (LowercaseSet.new (keys save)) (key (keyEvent "S"))
               = true) by (vm_compute; reflexivity).
  assert (Hi : invokes 1 (snd (handleKeyDown [arrows; save] {[ "control" ]}
                                 (keyEvent "S"))) = true)
    by (vm_compute; reflexivity).
  split; [auto|].
  exact (default_suppressed_before_callback [arrows; save] {[ "control" ]}
           (keyEvent "S") 1 save eq_refl eq_refl Hh Hi).
Defined.

(** X16.  After registration has succeeded, a command is called by a
    key-down only while at least one of the keys it lists is held: no
    command is called on the strength of an empty key list. *)
Theorem registered_command_needs_a_held_key (commands : list useKeysCommand)
    (initial pressedKeys : gset string) (e : KeyboardEvent) (i : nat)
    (c : useKeysCommand) :
  useKeys commands = inr initial →
  commands !! i = Some c →
  invokes i (snd (handleKeyDown commands pressedKeys e)) = true →
  ∃ k, k ∈ keys c
       ∧ LowercaseSet.has (fst (handleKeyDown commands pressedKeys e)) k = true.
Proof.
  intros Hreg Hc Hinv.
  assert (Hkeys : keys c ≠ []).
  { intros Hnil. unfold useKeys in Hreg.
    assert (Hex : existsb (fun cmd => Nat.eqb (length (keys cmd)) 0) commands = true).
    { apply existsb_exists. exists c. split.
      - apply list_elem_of_In, list_elem_of_lookup. eauto.
      - rewrite Hnil. reflexivity. }
    rewrite Hex in Hreg. discriminate Hreg. }
  rewrite handleKeyDown_held_keys.
  rewrite (invokes_handleKeyDown _ _ _ _ _ Hc) in Hinv.
  apply andb_true_iff in Hinv as [_ Hinv]. apply andb_true_iff in Hinv as [_ Hk].
  assert (Hlow : ∀ v, LowercaseSet.has (LowercaseSet.add (key e) pressedKeys)
                        (toLowerCase v)
                      = LowercaseSet.has (LowercaseSet.add (key e) pressedKeys) v).
  { intros v. unfold LowercaseSet.has. rewrite toLowerCase_idem. reflexivity. }
  destruct (default false (triggerOnAnyKey c)) eqn:Hflag.
  - apply (checkKeys_any _ _ _ Hflag) in Hk as (k & Hin & Hhas).
    apply LowercaseSetFacts.elem_of_new in Hin as (v & Hv & ->).
    exists v. split; [exact Hv|]. rewrite <- Hlow. exact Hhas.
  - destruct (keys c) as [|v ks] eqn:Hks; [destruct (Hkeys eq_refl)|].
    exists v. split; [left|]. rewrite <- Hlow.
    apply (proj1 (checkKeys_all _ _ _ Hflag) Hk).
    apply LowercaseSetFacts.elem_of_new. exists v. split; [left|reflexivity].
Qed.

Lemma registered_command_needs_a_held_key_witness :
  let commands := [arrows; save] in
  let pressedKeys : gset string := {[ "control" ]} in
  let e := keyEvent "ArrowLeft" in
  (useKeys commands = inr ∅
   ∧ commands !! 0 = Some arrows
   ∧ invokes 0 (snd (handleKeyDown commands pressedKeys e)) = true)
  ∧ ∃ k, k ∈ keys arrows
         ∧ LowercaseSet.has (fst (handleKeyDown commands pressedKeys e)) k = true.
Proof.
  cbv zeta.
  assert (Hi : invokes 0 (snd (handleKeyDown [arrows; save] {[ "control" ]}
                                 (keyEvent "ArrowLeft"))) = true)
    by (vm_compute; reflexivity).
  split; [auto|].
  exact (registered_command_needs_a_held_key [arrows; save] ∅ {[ "control" ]}
           (keyEvent "ArrowLeft") 0 arrows eq_refl eq_refl Hi).
Defined.

(** X17.  Commands do not affect each other: whether a command is called by
    a key-down is what it would be were it registered alone. *)
Theorem commands_match_independently (commands : list useKeysCommand)
    (pressedKeys : gset string) (e : KeyboardEvent) (i : nat) (c : useKeysCommand) :
  commands !! i = Some c →
  invokes i (snd (handleKeyDown commands pressedKeys e))
  = invokes 0 (snd (handleKeyDown [c] pressedKeys e)).
Proof.
  intros Hc.
  rewrite (invokes_handleKeyDown _ _ _ _ _ Hc).
  rewrite (invokes_handleKeyDown [c] pressedKeys e 0 c eq_refl). reflexivity.
Qed.

Lemma commands_match_independently_witness :
  let commands := [arrows; save; command ["a"] 3] in
  let pressedKeys : gset string := {[ "control" ]} in
  commands !! 1 = Some save
  ∧ invokes 1 (snd (handleKeyDown commands pressedKeys (keyEvent "s")))
    = invokes 0 (snd (handleKeyDown [save] pressedKeys (keyEvent "s"))).
Proof.
  cbv zeta. split; [reflexivity|].
  exact (commands_match_independently [arrows; save; command ["a"] 3]
           {[ "control" ]} (keyEvent "s") 1 save eq_refl).
Defined.

(** ** Held keys over a sequence of notifications *)

(** X12.  Starting with no key held, a key is held after a sequence of
    notifications iff the sequence has a key-down of it (in any letter case)
    that is followed by no key-up of it and by no blur. *)
Theorem held_iff_pressed_and_not_released (commands : list useKeysCommand)
    (ns : list Notification) (k : string) :
  LowercaseSet.has (fst (run commands ∅ ns)) k = true
  ↔ ∃ before e after,
      ns = before ++ KeyDown e :: after
      ∧ sameKey (key e) k = true
      ∧ forallb (fun n => negb (releases k n)) after = true.
Proof.
  rewrite has_run.
  destruct (LowercaseSet.has ∅ k) eqn:Hempty.
  { apply LowercaseSetFacts.has_true in Hempty. by apply not_elem_of_empty in Hempty. }
  rewrite recorded_spec. split.
  - intros [[Hfalse _]|H]; [discriminate Hfalse|exact H].
  - intros H. right. exact H.
Qed.

Lemma held_iff_pressed_and_not_released_witness :
  let ns := [KeyDown (keyEvent "Shift"); KeyDown (keyEvent "a");
             KeyUp (keyEvent "A"); KeyDown (keyEvent "b")] in
  LowercaseSet.has (fst (run [arrows] ∅ ns)) "SHIFT" = true
  ∧ ∃ before e after,
      ns = before ++ KeyDown e :: after
      ∧ sameKey (key e) "SHIFT" = true
      ∧ forallb (fun n => negb (releases "SHIFT" n)) after = true.
Proof.
  cbv zeta.
  assert (H : LowercaseSet.has
                (fst (run [arrows] ∅
                        [KeyDown (keyEvent "Shift"); KeyDown (keyEvent "a");
                         KeyUp (keyEvent "A"); KeyDown (keyEvent "b")])) "SHIFT"
              = true) by (vm_compute; reflexivity).
  split; [exact H|].
  exact (proj1 (held_iff_pressed_and_not_released [arrows] _ "SHIFT") H).
Defined.

(** X13.  The held keys follow the notifications alone: whatever commands
    are registered, the same sequence of notifications leaves the same keys
    held. *)
Theorem held_keys_ignore_commands (commands commands' : list useKeysCommand)
    (pressedKeys : gset string) (ns : list Notification) :
  fst (run commands pressedKeys ns) = fst (run commands' pressedKeys ns).
Proof.
  revert pressedKeys. induction ns as [|n ns IH]; intros pressedKeys.
  - reflexivity.
  - rewrite !run_cons. simpl.
    assert (Hn : fst (dispatch commands pressedKeys n)
                 = fst (dispatch commands' pressedKeys n)).
    { destruct n as [e|e|]; simpl; [|reflexivity|reflexivity].
      rewrite !handleKeyDown_held_keys. reflexivity. }
    rewrite Hn. apply IH.
Qed.

(** X14.  Press and release is a round trip.  A key-down of a key that is
    not held, followed by a key-up of it (in any letter case), leaves the
    held keys as they were; so a second key-down of the key makes the same
    calls as the first. *)
Theorem press_release_round_trip (commands : list useKeysCommand)
    (pressedKeys : gset string) (e e' : KeyboardEvent) :
  LowercaseSet.has pressedKeys (key e) = false →
  sameKey (key e') (key e) = true →
  fst (run commands pressedKeys [KeyDown e; KeyUp e']) = pressedKeys
  ∧ snd (run commands pressedKeys [KeyDown e; KeyUp e'])
    = snd (handleKeyDown commands pressedKeys e)
  ∧ snd (run commands pressedKeys [KeyDown e; KeyUp e'; KeyDown e])
    = snd (handleKeyDown commands pressedKeys e)
      ++ snd (handleKeyDown commands pressedKeys e).
Proof.
  intros Hfresh Hs.
  assert (Hback : LowercaseSet.delete (key e')
                    (fst (handleKeyDown commands pressedKeys e)) = pressedKeys).
  { rewrite handleKeyDown_held_keys. apply sameKey_true in Hs.
    apply LowercaseSetFacts.has_false in Hfresh.
    unfold LowercaseSet.delete, LowercaseSet.add. rewrite Hs.
    apply set_eq. intros k.
    rewrite elem_of_difference, elem_of_union, elem_of_singleton.
    split; [tauto|]. intros Hk. split; [tauto|]. intros ->. exact (Hfresh Hk). }
  split; [|split].
  - rewrite run_cons. simpl. exact Hback.
  - rewrite run_cons. simpl. rewrite app_nil_r. reflexivity.
  - rewrite !run_cons. simpl. rewrite Hback, app_nil_r. reflexivity.
Qed.

Lemma press_release_round_trip_witness :
  let pressedKeys : gset string := {[ "control" ]} in
  let e := keyEvent "s" in
  let e' := keyEvent "S" in
  (LowercaseSet.has pressedKeys (key e) = false ∧ sameKey (key e') (key e) = true)
  ∧ (fst (run [save] pressedKeys [KeyDown e; KeyUp e']) = pressedKeys
     ∧ snd (run [save] pressedKeys [KeyDown e; KeyUp e'])
       = snd (handleKeyDown [save] pressedKeys e)
     ∧ snd (run [save] pressedKeys [KeyDown e; KeyUp e'; KeyDown e])
       = snd (handleKeyDown [save] pressedKeys e)
         ++ snd (handleKeyDown [save] pressedKeys e)).
Proof.
  cbv zeta.
  assert (Hf : LowercaseSet.has ({[ "control" ]} : gset string) (key (keyEvent "s"))
               = false) by (vm_compute; reflexivity).
  split; [split; [exact Hf|reflexivity]|].
  exact (press_release_round_trip [save] {[ "control" ]} (keyEvent "s")
           (keyEvent "S") Hf eq_refl).
Defined.

(** X15.  A key-up of a key that is not held changes nothing and calls
    nothing. *)
Theorem key_up_of_absent_key_is_noop (pressedKeys : gset string) (e : KeyboardEvent) :
  LowercaseSet.has pressedKeys (key e) = false →
  handleKeyUp pressedKeys e = (pressedKeys, []).
Proof.
  intros Hout. apply LowercaseSetFacts.has_false in Hout.
  unfold handleKeyUp, LowercaseSet.delete. f_equal.
  apply set_eq. intros k. rewrite elem_of_difference, elem_of_singleton.
  split; [tauto|]. intros Hk. split; [exact Hk|]. intros ->. exact (Hout Hk).
Qed.

Lemma key_up_of_absent_key_is_noop_witness :
  let pressedKeys : gset string := {[ "control" ]} in
  LowercaseSet.has pressedKeys (key (keyEvent "s")) = false
  ∧ handleKeyUp pressedKeys (keyEvent "s") = (pressedKeys, []).
Proof.
  cbv zeta.
  assert (Hf : LowercaseSet.has ({[ "control" ]} : gset string) (key (keyEvent "s"))
               = false) by (vm_compute; reflexivity).
  split; [exact Hf|].
  exact (key_up_of_absent_key_is_noop {[ "control" ]} (keyEvent "s") Hf).
Defined.

(** ** The earlier, single-command hook *)

Lemma earlier_held_keys (prop : EarlierUseKeys.useKeysProp) (pressedKeys : gset string)
    (e : KeyboardEvent) :
  fst (EarlierUseKeys.handleKeyDown prop pressedKeys e)
  = {[ toLowerCase (key e) ]} ∪ pressedKeys.
Proof.
  unfold EarlierUseKeys.handleKeyDown.
  destruct (bool_decide (toLowerCase (key e) ∈ pressedKeys)) eqn:Hheld; simpl;
    [|reflexivity].
  apply bool_decide_eq_true in Hheld. apply set_eq. intros k.
  rewrite elem_of_union, elem_of_singleton.
  split; [auto|]. intros [->|Hk]; assumption.
Qed.

(** X18.  The earlier hook calls [preventDefault] on every key-down of a
    key it lists with [preventDefault] set, whether the key is already held
    or not; nothing else decides it.  On a key-down of a held key that is
    all it does. *)
Theorem earlier_suppresses_on_every_key_down (prop : EarlierUseKeys.useKeysProp)
    (pressedKeys : gset string) (e : KeyboardEvent) :
  (In (EarlierUseKeys.PreventDefault e)
      (snd (EarlierUseKeys.handleKeyDown prop pressedKeys e))
   ↔ EarlierUseKeys.preventDefault prop = Some true
     ∧ toLowerCase (key e) ∈ EarlierUseKeys.keys prop)
  ∧ (toLowerCase (key e) ∈ pressedKeys →
     fst (EarlierUseKeys.handleKeyDown prop pressedKeys e) = pressedKeys
     ∧ ∀ eff, In eff (snd (EarlierUseKeys.handleKeyDown prop pressedKeys e)) →
              eff = EarlierUseKeys.PreventDefault e).
Proof.
  unfold EarlierUseKeys.handleKeyDown, EarlierUseKeys.keysSet.
  assert (Hcond : bool_decide (toLowerCase (key e)
                                 ∈ (list_to_set (EarlierUseKeys.keys prop) : gset string))
                  && truthy (EarlierUseKeys.preventDefault prop) = true
                  ↔ EarlierUseKeys.preventDefault prop = Some true
                    ∧ toLowerCase (key e) ∈ EarlierUseKeys.keys prop).
  { rewrite andb_true_iff, bool_decide_eq_true, elem_of_list_to_set.
    destruct (EarlierUseKeys.preventDefault prop) as [[]|]; simpl;
      split; intros [H1 H2]; try discriminate; auto. }
  destruct (bool_decide (toLowerCase (key e) ∈ list_to_set (EarlierUseKeys.keys prop))
            && truthy (EarlierUseKeys.preventDefault prop)) eqn:Hc.
  - split.
    + split; [intros _; apply Hcond; reflexivity|].
      intros _. destruct (negb _); simpl; left; reflexivity.
    + intros Hheld. rewrite (bool_decide_eq_true_2 _ Hheld). simpl.
      split; [reflexivity|]. intros eff [<-|[]]. reflexivity.
  - split.
    + split.
      * destruct (negb _); simpl; [|intros []].
        intros [H|H]; [discriminate H|].
        destruct (EarlierUseKeys.checkKeys prop _ && _); simpl in H.
        -- destruct H as [H|[]]. discriminate H.
        -- destruct H.
      * intros H. apply Hcond in H. discriminate H.
    + intros Hheld. rewrite (bool_decide_eq_true_2 _ Hheld). simpl.
      split; [reflexivity|]. intros eff [].
Qed.

Lemma earlier_suppresses_on_every_key_down_witness :
  let pressedKeys : gset string := {[ "control"; "s" ]} in
  let e := keyEvent "S" in
  toLowerCase (key e) ∈ pressedKeys
  ∧ In (EarlierUseKeys.PreventDefault e)
       (snd (EarlierUseKeys.handleKeyDown EarlierUseKeys.save pressedKeys e))
  ∧ fst (EarlierUseKeys.handleKeyDown EarlierUseKeys.save pressedKeys e) = pressedKeys.
Proof.
  cbv zeta.
  assert (Hheld : toLowerCase (key (keyEvent "S")) ∈ ({[ "control"; "s" ]} : gset string)).
  { vm_compute. reflexivity. }
  destruct (earlier_suppresses_on_every_key_down EarlierUseKeys.save
              {[ "control"; "s" ]} (keyEvent "S")) as [Hiff Hrest].
  split; [exact Hheld|]. split.
  - apply Hiff. split; [reflexivity|]. simpl. left.
  - exact (proj1 (Hrest Hheld)).
Defined.

(** X19.  The earlier hook lowers the event key but keeps the listed keys
    as written when it decides on [preventDefault]: a command that lists a
    single key with a capital in it is matched by a key-down of that key
    and its callback is called, yet [preventDefault] is not. *)
Theorem earlier_capital_key_is_not_suppressed (prop : EarlierUseKeys.useKeysProp)
    (pressedKeys : gset string) (e : KeyboardEvent) (k : string) :
  EarlierUseKeys.keys prop = [k] →
  toLowerCase k ≠ k →
  sameKey (key e) k = true →
  toLowerCase k ∉ pressedKeys →
  EarlierUseKeys.checkModifiers prop e = true →
  snd (EarlierUseKeys.handleKeyDown prop pressedKeys e)
  = [EarlierUseKeys.ConsoleLog ({[ toLowerCase k ]} ∪ pressedKeys);
     EarlierUseKeys.Invoke (EarlierUseKeys.callback prop) e].
Proof.
  intros Hkeys Hcap Hs Hfresh Hm. apply sameKey_true in Hs.
  unfold EarlierUseKeys.handleKeyDown. rewrite Hs, Hm.
  assert (Hset : EarlierUseKeys.keysSet prop = {[ k ]}).
  { unfold EarlierUseKeys.keysSet. rewrite Hkeys. simpl.
    apply set_eq. intros x. rewrite elem_of_union, elem_of_singleton.
    split; [intros [H|H]; [exact H|by apply not_elem_of_empty in H]|auto]. }
  assert (Hnot : bool_decide (toLowerCase k ∈ EarlierUseKeys.keysSet prop) = false).
  { apply bool_decide_eq_false. rewrite Hset, elem_of_singleton. exact Hcap. }
  rewrite Hnot. simpl.
  assert (Hf : bool_decide (toLowerCase k ∈ pressedKeys) = false)
    by (apply bool_decide_eq_false, Hfresh).
  rewrite Hf. simpl.
  assert (Hk : EarlierUseKeys.checkKeys prop ({[ toLowerCase k ]} ∪ pressedKeys) = true).
  { unfold EarlierUseKeys.checkKeys. rewrite Hset, elements_singleton. simpl.
    assert (Hin : bool_decide (toLowerCase k ∈ ({[toLowerCase k]} ∪ pressedKeys)) = true).
    { apply bool_decide_eq_true, elem_of_union. left. apply elem_of_singleton.
      reflexivity. }
    rewrite Hin. destruct (truthy (EarlierUseKeys.triggerOnAnyKey prop)); reflexivity. }
  rewrite Hk. reflexivity.
Qed.

Lemma earlier_capital_key_is_not_suppressed_witness :
  let prop := {| EarlierUseKeys.keys := ["S"]; EarlierUseKeys.callback := 1;
                 EarlierUseKeys.triggerOnAnyKey := None;
                 EarlierUseKeys.modifiers := None;
                 EarlierUseKeys.preventDefault := Some true |} in
  snd (EarlierUseKeys.handleKeyDown prop ∅ (keyEvent "S"))
  = [EarlierUseKeys.ConsoleLog ({[ toLowerCase "S" ]} ∪ ∅);
     EarlierUseKeys.Invoke 1 (keyEvent "S")].
Proof.
  cbv zeta.
  apply (earlier_capital_key_is_not_suppressed
           {| EarlierUseKeys.keys := ["S"]; EarlierUseKeys.callback := 1;
              EarlierUseKeys.triggerOnAnyKey := None;
              EarlierUseKeys.modifiers := None;
              EarlierUseKeys.preventDefault := Some true |}
           ∅ (keyEvent "S") "S" eq_refl).
  - discriminate.
  - reflexivity.
  - apply not_elem_of_empty.
  - reflexivity.
Defined.

Lemma earlier_checkModifiers_spec (prop : EarlierUseKeys.useKeysProp)
    (e : KeyboardEvent) :
  EarlierUseKeys.checkModifiers prop e = true
  ↔ ∀ modifier required,
      (modifier, required) ∈ default [] (EarlierUseKeys.modifiers prop) →
      required = EarlierUseKeys.flagOf e modifier.
Proof.
  unfold EarlierUseKeys.checkModifiers. rewrite forallb_forall. split.
  - intros H m r Hin. apply list_elem_of_In in Hin.
    specialize (H _ Hin). simpl in H. apply eqb_prop. exact H.
  - intros H [m r] Hin. apply list_elem_of_In in Hin.
    rewrite (H _ _ Hin). apply eqb_reflx.
Qed.

Lemma earlier_checkKeys_spec (prop : EarlierUseKeys.useKeysProp)
    (pressedKeys : gset string) :
  EarlierUseKeys.checkKeys prop pressedKeys = true
  ↔ if truthy (EarlierUseKeys.triggerOnAnyKey prop)
    then ∃ k, k ∈ EarlierUseKeys.keys prop ∧ toLowerCase k ∈ pressedKeys
    else ∀ k, k ∈ EarlierUseKeys.keys prop → toLowerCase k ∈ pressedKeys.
Proof.
  unfold EarlierUseKeys.checkKeys, EarlierUseKeys.keysSet.
  destruct (truthy (EarlierUseKeys.triggerOnAnyKey prop)).
  - rewrite existsb_exists. split.
    + intros (k & Hk & H). exists k. split; [|apply bool_decide_eq_true in H; exact H].
      apply list_elem_of_In, elem_of_elements, elem_of_list_to_set in Hk. exact Hk.
    + intros (k & Hk & H). exists k. split; [|apply bool_decide_eq_true; exact H].
      apply list_elem_of_In, elem_of_elements, elem_of_list_to_set. exact Hk.
  - rewrite forallb_forall. split.
    + intros H k Hk. apply (bool_decide_eq_true _), H.
      apply list_elem_of_In, elem_of_elements, elem_of_list_to_set. exact Hk.
    + intros H k Hk. apply bool_decide_eq_true, H.
      apply list_elem_of_In, elem_of_elements, elem_of_list_to_set in Hk. exact Hk.
Qed.

(** X20.  The earlier hook reads the modifiers from the raw flags of the
    event.  Its callback is called on a key-down iff the key was not held,
    the listed keys are held once the key is added (all of them, or one with
    [triggerOnAnyKey]), and every named flag of the event has the required
    value; which modifier keys are held plays no part. *)
Theorem earlier_callback_reads_event_flags (prop : EarlierUseKeys.useKeysProp)
    (pressedKeys : gset string) (e : KeyboardEvent) :
  let held := {[ toLowerCase (key e) ]} ∪ pressedKeys in
  In (EarlierUseKeys.Invoke (EarlierUseKeys.callback prop) e)
     (snd (EarlierUseKeys.handleKeyDown prop pressedKeys e))
  ↔ (toLowerCase (key e) ∉ pressedKeys)
    ∧ (if truthy (EarlierUseKeys.triggerOnAnyKey prop)
       then ∃ k, k ∈ EarlierUseKeys.keys prop ∧ toLowerCase k ∈ held
       else ∀ k, k ∈ EarlierUseKeys.keys prop → toLowerCase k ∈ held)
    ∧ ∀ modifier required,
        (modifier, required) ∈ default [] (EarlierUseKeys.modifiers prop) →
        required = EarlierUseKeys.flagOf e modifier.
Proof.
  intros held. rewrite <- earlier_checkKeys_spec, <- earlier_checkModifiers_spec.
  subst held. unfold EarlierUseKeys.handleKeyDown.
  destruct (bool_decide (toLowerCase (key e) ∈ pressedKeys)) eqn:Hheld; simpl.
  - apply bool_decide_eq_true in Hheld. split.
    + destruct (bool_decide _ && truthy _); simpl; [|intros []].
      intros [H|[]]. discriminate H.
    + intros [H _]. destruct (H Hheld).
  - apply bool_decide_eq_false in Hheld. rewrite in_app_iff. simpl.
    destruct (EarlierUseKeys.checkKeys prop _) eqn:Hk;
      destruct (EarlierUseKeys.checkModifiers prop e) eqn:Hm; simpl.
    + split; [auto|]. intros _. right. right. left. reflexivity.
    + split; [|intros (_ & _ & H); discriminate H].
      intros [H|[H|[]]]; [|discriminate H].
      destruct (bool_decide _ && truthy _); simpl in H; [|destruct H].
      destruct H as [H|[]]. discriminate H.
    + split; [|intros (_ & H & _); discriminate H].
      intros [H|[H|[]]]; [|discriminate H].
      destruct (bool_decide _ && truthy _); simpl in H; [|destruct H].
      destruct H as [H|[]]. discriminate H.
    + split; [|intros (_ & H & _); discriminate H].
      intros [H|[H|[]]]; [|discriminate H].
      destruct (bool_decide _ && truthy _); simpl in H; [|destruct H].
      destruct H as [H|[]]. discriminate H.
Qed.

(** With Control never pressed, an event that says [ctrlKey] calls the
    earlier hook's save command; the present hook does not call its own. *)
Example flag_without_key_down :
  let e := {| key := "s"; ctrlKey := true; shiftKey := false;
              altKey := false; metaKey := false |} in
  snd (EarlierUseKeys.handleKeyDown EarlierUseKeys.save ∅ e)
  = [EarlierUseKeys.PreventDefault e; EarlierUseKeys.ConsoleLog {[ "s" ]};
     EarlierUseKeys.Invoke 1 e]
  ∧ invokes 0 (snd (handleKeyDown [save] ∅ e)) = false.
Proof. split; vm_compute; reflexivity. Qed.

(** X21.  The earlier hook and the present one keep the same held keys: on
    the same sequence of notifications from the same held keys they end with
    the same set, whatever the command or commands registered. *)
Theorem earlier_hook_holds_the_same_keys (prop : EarlierUseKeys.useKeysProp)
    (commands : list useKeysCommand) (pressedKeys : gset string)
    (ns : list Notification) :
  fst (EarlierUseKeys.run prop pressedKeys ns) = fst (run commands pressedKeys ns).
Proof.
  revert pressedKeys. induction ns as [|n ns IH]; intros pressedKeys.
  - reflexivity.
  - rewrite run_cons. simpl.
    assert (Hn : fst (EarlierUseKeys.dispatch prop pressedKeys n)
                 = fst (dispatch commands pressedKeys n)).
    { destruct n as [e|e|]; simpl; [|reflexivity|reflexivity].
      rewrite earlier_held_keys, handleKeyDown_held_keys. reflexivity. }
    destruct (EarlierUseKeys.dispatch prop pressedKeys n) as [p1 t1].
    simpl in Hn. subst p1.
    specialize (IH (fst (dispatch commands pressedKeys n))).
    destruct (EarlierUseKeys.run prop (fst (dispatch commands pressedKeys n)) ns)
      as [p2 t2].
    simpl in *. exact IH.
Qed.

(** X22.  The earlier hook throws exactly when the [keys] array is empty:
    duplicates in the array do not matter to the check. *)
Theorem earlier_hook_rejects_empty_keys (prop : EarlierUseKeys.useKeysProp) :
  (EarlierUseKeys.keys prop = []
   ↔ EarlierUseKeys.useKeys prop
     = inl (ErrorMsg "useKeys: keys array cannot be empty"))
  ∧ (EarlierUseKeys.keys prop ≠ [] ↔ EarlierUseKeys.useKeys prop = inr ∅).
Proof.
  unfold EarlierUseKeys.useKeys, EarlierUseKeys.keysSet.
  destruct (EarlierUseKeys.keys prop) as [|k ks] eqn:Hkeys.
  - assert (H0 : size (list_to_set [] : gset string) = 0) by apply size_empty.
    rewrite H0. simpl.
    split; split; try reflexivity; try discriminate. intros H. destruct (H eq_refl).
  - assert (Hne : size (list_to_set (k :: ks) : gset string) ≠ 0).
    { apply size_non_empty_iff. intros Hempty.
      assert (Hin : k ∈ (list_to_set (k :: ks) : gset string)).
      { apply elem_of_list_to_set. left. }
      rewrite Hempty in Hin. by apply not_elem_of_empty in Hin. }
    apply Nat.eqb_neq in Hne. rewrite Hne.
    split; split; try discriminate; try reflexivity.
Qed.
